(** * Pharos: download, install and indexing pipeline

    A shallow embedding of [download.py] (class [Downloader]) and
    [autoinstall.py] (class [AutoInstaller]), and the properties of the
    fingerprint ledger, the metadata merge, the install engine, the image
    sync and the download worker.

    Files are modelled by what the code can observe of them: a JSON or XML
    file is either a document the parser accepts or bytes it rejects, a
    directory is a finite map from names to files.  Effects are threaded
    through a state monad with exceptions; the places where the operating
    system or the network may fail are inputs of the model.  [os.replace]
    is one atomic step, as the operating system promises. *)

From Stdlib Require Import ZArith Ascii String List Lia Bool.
From stdpp Require Import base option list gmap strings fin_maps sorting.

Set Warnings "-register-all,-clear-no-such-hyp".

Open Scope string_scope.
Open Scope Z_scope.
Open Scope list_scope.

(** ** Strings *)

(** [str.lower] on the ASCII range; other characters are left as they are.
    The proofs below use nothing of it but that it is a function. *)
Definition lower_ascii (c : ascii) : ascii :=
  let n := nat_of_ascii c in
  if ((65 <=? n)%nat && (n <=? 90)%nat)%bool then ascii_of_nat (n + 32) else c.

Fixpoint lower (s : string) : string :=
  match s with
  | EmptyString => EmptyString
  | String c s' => String (lower_ascii c) (lower s')
  end.

(** [s.endswith(suffix)] *)
Fixpoint endswith (s suffix : string) : bool :=
  if String.eqb s suffix then true
  else match s with
       | EmptyString => false
       | String _ s' => endswith s' suffix
       end.

(** [path.split("/")] *)
Fixpoint split_slash (cur : string) (s : string) : list string :=
  match s with
  | EmptyString => [cur]
  | String c s' =>
      if Ascii.eqb c "/"%char then cur :: split_slash EmptyString s'
      else split_slash (cur +:+ String c EmptyString) s'
  end.

Definition components (p : string) : list string := split_slash EmptyString p.

(** ** Exceptions and the state monad *)

(** An exception as the handlers see it: [type(e).__name__] and [str(e)]. *)
Record exn := Exn { exn_type : string; exn_msg : string }.

Inductive res (A : Type) : Type :=
| Ok (a : A)
| Raised (e : exn).
Arguments Ok {A} a.
Arguments Raised {A} e.

Definition M (S A : Type) : Type := S -> res A * S.

Definition ret {S A} (a : A) : M S A := fun s => (Ok a, s).

Definition bind {S A B} (m : M S A) (k : A -> M S B) : M S B :=
  fun s => match m s with
           | (Ok a, s') => k a s'
           | (Raised e, s') => (Raised e, s')
           end.

Definition raise {S A} (e : exn) : M S A := fun s => (Raised e, s).

(** [try: body  except Exception as e: handler(e)] *)
Definition try_except {S A} (body : M S A) (handler : exn -> M S A) : M S A :=
  fun s => match body s with
           | (Ok a, s') => (Ok a, s')
           | (Raised e, s') => handler e s'
           end.

(** [with suppress(...): body] *)
Definition suppress {S} (body : M S unit) : M S unit :=
  try_except body (fun _ => ret tt).

Definition gets {S A} (f : S -> A) : M S A := fun s => (Ok (f s), s).
Definition modify {S} (f : S -> S) : M S unit := fun s => (Ok tt, f s).

Notation "'do' x <- m ; k" := (bind m (fun x => k))
  (at level 10, x name, m at level 100, k at level 200).

Definition state_of {S A} (r : res A * S) : S := snd r.
Definition result_of {S A} (r : res A * S) : res A := fst r.

(** ** Data model ([config.py]) *)

Record Port := {
  port_name : string;
  port_title : string;
  port_desc : string;
  port_download_url : string;
  port_image_path : option string;
  port_date_updated : option string;
  port_size : option Z;
  port_md5 : option string
}.

(** One record of the ledger: the JSON object [asdict(port)] writes.  A
    record read back from the file may lack its name, which the code reads
    as [d.get("name", "")]. *)
Record entry := {
  e_name : option string;
  e_title : string;
  e_desc : string;
  e_download_url : string;
  e_image_path : option string;
  e_date_updated : option string;
  e_size : option Z;
  e_md5 : option string
}.

Definition asdict (p : Port) : entry :=
  {| e_name := Some (port_name p);
     e_title := port_title p;
     e_desc := port_desc p;
     e_download_url := port_download_url p;
     e_image_path := port_image_path p;
     e_date_updated := port_date_updated p;
     e_size := port_size p;
     e_md5 := port_md5 p |}.

(** [d.get("name", "")] *)
Definition get_name (d : entry) : string := default "" (e_name d).

(** The ledger document: a dict from partition key to its records. *)
Abbreviation manifest := (gmap string (list entry)).

(** [data.get(key, [])] *)
Definition get_list (data : manifest) (key : string) : list entry :=
  default [] (data !! key).

(** What a ledger file holds, as [json.load] sees it: a document, the
    first [n] characters of the serialisation of a document that is longer
    than [n] (never valid JSON), or other text it rejects. *)
Inductive mfile :=
| Json (data : manifest)
| Prefix (data : manifest) (n : nat)
| Junk (raw : string).

(** ** XML documents and library files *)

(** An [ElementTree] element: tag, text and children. *)
Inductive elem := Elem (tag : string) (text : option string) (children : list elem).

Definition tag (e : elem) : string := let 'Elem t _ _ := e in t.
Definition text (e : elem) : option string := let 'Elem _ x _ := e in x.
Definition children (e : elem) : list elem := let 'Elem _ _ c := e in c.

(** [e.findall(t)]: the direct children with that tag, in document order. *)
Definition findall (t : string) (e : elem) : list elem :=
  filter (fun c => tag c = t) (children e).

(** [e.find(t)]: the first of them, or [None]. *)
Definition find (t : string) (e : elem) : option elem := head (findall t e).

(** A file of a library root as [ET.parse] sees it: a document with its
    root element, or bytes that raise [ParseError]. *)
Inductive fdata :=
| Raw (bytes : string)
| XmlOf (root : elem).

(** A staged archive, by what the code reads of it: its length, its MD5
    digest and, when [zipfile.ZipFile] accepts it, its entries in
    [namelist()] order with what each extracts to. *)
Record staged := {
  st_size : Z;
  st_md5 : string;
  st_zip : option (list (string * fdata))
}.

(** ** Progress events and console output *)

Inductive stage := StDownload | StInstall | StPhase.

(** The message of a progress event.  The percentage and the speed of a
    chunk message depend on the wall clock and are left out. *)
Inductive message :=
| MChunk (title : string)
| MDownloaded (title : string)
| MFailed (zip_name : string) (err : string)
| MInstallingPackages
| MInstalling (zip_name : string)
| MInstallFailed (zip_name : string)
| MInstalled (zip_name : string)
| MInstallationComplete.

Record event := Event {
  ev_done : Z;
  ev_total : Z;
  ev_message : message;
  ev_stage : stage
}.

(** The library roots [PORTS_DIR] and [WINDOWS_DIR]. *)
Inductive root_dir := PORTS_DIR | WINDOWS_DIR.

(** A file of a library root: the root and the path below it. *)
Abbreviation path := (root_dir * string)%type.

(** Lines printed on the console, one constructor per [print] call. *)
Inductive log_msg :=
| LogError (msg : string)
| LogManifestFailed (e : exn)
| LogNotFound (zip_name : string)
| LogInstall (zip_name : string)
| LogNoDescriptor (zip_name : string)
| LogExtract (zip_name : string) (base_dir : root_dir)
| LogFoundGameinfo (file : string)
| LogNoGameinfo (zip_name : string)
| LogBadZip (zip_name : string)
| LogInstallFailed (zip_name : string) (e : exn)
| LogInstalled (zip_name : string)
| LogBadGameinfo (file : string)
| LogCorruptGamelist
| LogCreate
| LogAdded (count : nat)
| LogNoNew (file : string).

(** ** The world of the download worker *)

Record world := World {
  staging : gmap string staged;       (* AUTOINSTALL_DIR: file name -> archive *)
  ports_dir : gmap string fdata;      (* PORTS_DIR: relative path -> file *)
  windows_dir : gmap string fdata;    (* WINDOWS_DIR: relative path -> file *)
  ledger : option mfile;              (* MANIFEST_PATH *)
  ledger_tmp : option mfile;          (* MANIFEST_PATH.with_suffix(".tmp") *)
  ledger_seen : list (option mfile);  (* what MANIFEST_PATH held after each file operation *)
  tree_writes : list path;            (* the files [tree.write] has written, in order *)
  progress_q : list event;
  stdout : list log_msg
}.

Definition set_staging (f : gmap string staged -> gmap string staged) (w : world) : world :=
  World (f (staging w)) (ports_dir w) (windows_dir w) (ledger w) (ledger_tmp w)
        (ledger_seen w) (tree_writes w) (progress_q w) (stdout w).

Definition set_ports_dir (f : gmap string fdata -> gmap string fdata) (w : world) : world :=
  World (staging w) (f (ports_dir w)) (windows_dir w) (ledger w) (ledger_tmp w)
        (ledger_seen w) (tree_writes w) (progress_q w) (stdout w).

Definition set_windows_dir (f : gmap string fdata -> gmap string fdata) (w : world) : world :=
  World (staging w) (ports_dir w) (f (windows_dir w)) (ledger w) (ledger_tmp w)
        (ledger_seen w) (tree_writes w) (progress_q w) (stdout w).

Definition set_ledger (x : option mfile) (w : world) : world :=
  World (staging w) (ports_dir w) (windows_dir w) x (ledger_tmp w)
        (ledger_seen w) (tree_writes w) (progress_q w) (stdout w).

Definition set_ledger_tmp (x : option mfile) (w : world) : world :=
  World (staging w) (ports_dir w) (windows_dir w) (ledger w) x
        (ledger_seen w) (tree_writes w) (progress_q w) (stdout w).

(** A reader of [MANIFEST_PATH] looks at it after a file operation. *)
Definition observe (w : world) : world :=
  World (staging w) (ports_dir w) (windows_dir w) (ledger w) (ledger_tmp w)
        (ledger_seen w ++ [ledger w]) (tree_writes w) (progress_q w) (stdout w).

Definition log_tree_write (p : path) (w : world) : world :=
  World (staging w) (ports_dir w) (windows_dir w) (ledger w) (ledger_tmp w)
        (ledger_seen w) (tree_writes w ++ [p]) (progress_q w) (stdout w).

Definition put_event (e : event) (w : world) : world :=
  World (staging w) (ports_dir w) (windows_dir w) (ledger w) (ledger_tmp w)
        (ledger_seen w) (tree_writes w) (progress_q w ++ [e]) (stdout w).

Definition logged (ls : list log_msg) (w : world) : world :=
  World (staging w) (ports_dir w) (windows_dir w) (ledger w) (ledger_tmp w)
        (ledger_seen w) (tree_writes w) (progress_q w) (stdout w ++ ls).

Definition print (l : log_msg) : M world unit := modify (logged [l]).

(** ** Fingerprint ledger ([Downloader._update_manifest]) *)

(** The steps of the write and rename sequence, each of which may raise. *)
Inductive write_step := AtOpen | AtDump | AtFlush | AtFsync | AtReplace.

Definition step_eqb (a b : write_step) : bool :=
  match a, b with
  | AtOpen, AtOpen | AtDump, AtDump | AtFlush, AtFlush
  | AtFsync, AtFsync | AtReplace, AtReplace => true
  | _, _ => false
  end.

(** The file system as one call meets it: the step that fails, if any, with
    its exception, and how many characters had left the write buffer for
    the file before the flush. *)
Record write_env := {
  w_fault : option (write_step * exn);
  w_spilled : nat
}.

Definition no_fault : write_env := {| w_fault := None; w_spilled := 0 |}.

Definition fails_at (env : write_env) (s : write_step) : option exn :=
  match w_fault env with
  | Some (s', e) => if step_eqb s s' then Some e else None
  | None => None
  end.

(** One file operation: it raises where the environment says so, otherwise
    it has its effect; a reader may look at the ledger after it. *)
Definition file_op (env : write_env) (s : write_step)
    (on_fail on_ok : world -> world) : M world unit :=
  fun w => match fails_at env s with
           | Some e => (Raised e, observe (on_fail w))
           | None => (Ok tt, observe (on_ok w))
           end.

(** [tmp.unlink()]: it removes the file, and raises [FileNotFoundError]
    (which the caller suppresses) when there is none.  Removing a file that
    exists is taken to succeed. *)
Definition unlink_tmp : M world unit :=
  fun w => match ledger_tmp w with
           | Some _ => (Ok tt, observe (set_ledger_tmp None w))
           | None => (Raised (Exn "FileNotFoundError" "manifest.tmp"), w)
           end.

(** The document read at the start: the file's, or the empty two-partition
    document when the file is missing or does not parse. *)
Definition load_manifest (live : option mfile) : manifest :=
  match live with
  | Some (Json data) => data
  | _ => <["ports" := []]> (<["bottles" := []]> ∅)
  end.

(** [key = "ports" if kind == "port" else "bottles"], and [other_key]. *)
Definition key_of (kind : string) : string :=
  if String.eqb kind "port" then "ports" else "bottles".

Definition other_key_of (kind : string) : string :=
  if String.eqb kind "port" then "bottles" else "ports".

(** The in-memory update of the document, statement by statement. *)
Definition updated (data : manifest) (port : Port) (kind : string) : manifest :=
  let key := key_of kind in
  let other_key := other_key_of kind in
  let data :=
    <[key := filter (fun d => lower (get_name d) <> lower (port_name port))
                    (get_list data key)]> data in
  let data := <[key := get_list data key ++ [asdict port]]> data in
  <[other_key := get_list data other_key]> data.

(** A record carries the name [n], compared as the code compares names. *)
Definition same_name (n : string) (d : entry) : Prop :=
  lower (get_name d) = lower n.

#[global] Instance same_name_dec n d : Decision (same_name n d).
Proof. unfold same_name. apply _. Defined.


(** The [try] body: write the temporary file, then rename it over the
    ledger. *)
Definition write_and_replace (env : write_env) (data : manifest) : M world unit :=
  do _ <- file_op env AtOpen id (set_ledger_tmp (Some (Junk "")));
  do _ <- file_op env AtDump (set_ledger_tmp (Some (Prefix data (w_spilled env))))
                             (set_ledger_tmp (Some (Prefix data (w_spilled env))));
  do _ <- file_op env AtFlush id (set_ledger_tmp (Some (Json data)));
  do _ <- file_op env AtFsync id id;
  file_op env AtReplace id
    (fun w => set_ledger_tmp None (set_ledger (ledger_tmp w) w)).

Definition _update_manifest (env : write_env) (port : Port) (kind : string)
    : M world unit :=
  do live <- gets ledger;
  let data := updated (load_manifest live) port kind in
  try_except (write_and_replace env data)
    (fun e =>
       do _ <- print (LogManifestFailed e);
       suppress unlink_tmp).

(** ** Metadata merge ([AutoInstaller.gamelist_add]) *)

Definition dir_of (r : root_dir) (w : world) : gmap string fdata :=
  match r with PORTS_DIR => ports_dir w | WINDOWS_DIR => windows_dir w end.

Definition set_dir (r : root_dir) (f : gmap string fdata -> gmap string fdata)
    (w : world) : world :=
  match r with PORTS_DIR => set_ports_dir f w | WINDOWS_DIR => set_windows_dir f w end.

Definition read_file (p : path) (w : world) : option fdata := dir_of p.1 w !! p.2.

(** What the environment does to one install: extraction may raise after
    some entries, and writing the library index may raise. *)
Record install_env := {
  extract_fault : option (nat * exn);
  index_write_fault : option exn
}.

Definition no_install_fault : install_env :=
  {| extract_fault := None; index_write_fault := None |}.

(** A value a Python function returns. *)
Inductive pyval := PyNone | PyInt (n : Z).

Definition is_ParseError (e : exn) : bool := String.eqb (exn_type e) "ParseError".

(** [try: body  except SomeError as e: handler(e)]: other exceptions pass. *)
Definition try_except_if {S A} (catches : exn -> bool) (body : M S A)
    (handler : exn -> M S A) : M S A :=
  fun s => match body s with
           | (Ok a, s') => (Ok a, s')
           | (Raised e, s') => if catches e then handler e s' else (Raised e, s')
           end.

(** [ET.parse(p).getroot()] *)
Definition ET_parse (p : path) : M world elem :=
  fun w => match read_file p w with
           | Some (XmlOf root) => (Ok root, w)
           | Some (Raw _) => (Raised (Exn "ParseError" p.2), w)
           | None => (Raised (Exn "FileNotFoundError" p.2), w)
           end.

(** [tree.write(p, ...)], which raises when the file cannot be opened for
    writing.  [ET.indent] before it changes whitespace only and is not
    modelled. *)
Definition tree_write (env : install_env) (p : path) (root : elem) : M world unit :=
  fun w => match index_write_fault env with
           | Some e => (Raised e, w)
           | None => (Ok tt, log_tree_write p (set_dir p.1 (insert p.2 (XmlOf root)) w))
           end.

(** The path of a game entry: [None] without a [path] child, otherwise the
    text of the first one (itself [None] for an empty element). *)
Definition path_of (game : elem) : option (option string) := text <$> find "path" game.

(** The set comprehension that collects the paths already in the index. *)
Definition paths_of (games : list elem) : gset (option string) :=
  list_to_set (omap path_of games).

Definition paths_in (root : elem) : gset (option string) :=
  paths_of (findall "game" root).

(** The loop over the source entries, with the variables it updates: the
    children of the index root, [existing_paths] and [count]. *)
Fixpoint merge_loop (games : list elem) (root_children : list elem)
    (existing_paths : gset (option string)) (count : nat)
    : list elem * gset (option string) * nat :=
  match games with
  | [] => (root_children, existing_paths, count)
  | game :: rest =>
      match find "path" game with
      | Some path_elem =>
          let path := text path_elem in
          if decide (path ∉ existing_paths)
          then merge_loop rest (root_children ++ [game])
                          ({[path]} ∪ existing_paths) (S count)
          else merge_loop rest root_children existing_paths count
      | None => merge_loop rest root_children existing_paths count
      end
  end.

(** Loading the index: the parsed root (renamed when its tag is not
    [gamelist], case apart), or a fresh [gameList] element when the file is
    absent or does not parse. *)
Definition load_gamelist (gamelist_path : path) : M world elem :=
  do present <- gets (fun w => read_file gamelist_path w);
  match present with
  | Some _ =>
      try_except_if is_ParseError
        (do root <- ET_parse gamelist_path;
         ret (if decide (lower (tag root) <> "gamelist")
              then Elem "gameList" (text root) (children root)
              else root))
        (fun _ =>
           do _ <- print LogCorruptGamelist;
           ret (Elem "gameList" None []))
  | None =>
      do _ <- print LogCreate;
      ret (Elem "gameList" None [])
  end.

Definition gamelist_add (env : install_env) (gameinfo_file gamelist_path : path)
    : M world pyval :=
  do parsed <- try_except_if is_ParseError
                 (do root_gameinfo <- ET_parse gameinfo_file; ret (Some root_gameinfo))
                 (fun _ => do _ <- print (LogBadGameinfo gameinfo_file.2); ret None);
  match parsed with
  | None => ret PyNone
  | Some root_gameinfo =>
      do root <- load_gamelist gamelist_path;
      let existing_paths := paths_in root in
      let '(root_children, _, count) :=
        merge_loop (findall "game" root_gameinfo) (children root) existing_paths 0 in
      if decide (0 < count)%nat then
        do _ <- tree_write env gamelist_path (Elem (tag root) (text root) root_children);
        do _ <- print (LogAdded count);
        ret PyNone
      else
        do _ <- print (LogNoNew gameinfo_file.2);
        ret PyNone
  end.

(** What the loop appends to an index whose paths are [existing_paths]. *)
Definition appended (existing_paths : gset (option string)) (games : list elem)
    : list elem :=
  (merge_loop games [] existing_paths 0).1.1.

(** An entry is fresh when it has a path that is neither in the index
    before the merge nor the path of an entry the merge added before it. *)
Definition fresh (existing_paths : gset (option string)) (added : list elem)
    (game : elem) : Prop :=
  match path_of game with
  | Some p => (p ∉ existing_paths) /\ (Some p ∉ path_of <$> added)
  | None => False
  end.

#[global] Instance fresh_dec E added game : Decision (fresh E added game).
Proof. unfold fresh. destruct (path_of game); apply _. Defined.

(** ** Install engine ([AutoInstaller.install_zip]) *)

Definition is_BadZipFile (e : exn) : bool := String.eqb (exn_type e) "BadZipFile".

(** [zipfile.ZipFile(zip_path, "r")] *)
Definition ZipFile (zip_name : string) (archive : staged)
    : M world (list (string * fdata)) :=
  match st_zip archive with
  | Some entries => ret entries
  | None => raise (Exn "BadZipFile" zip_name)
  end.

(** [file.endswith(("port.json", "bottle.json"))] *)
Definition is_descriptor (file : string) : bool :=
  endswith file "port.json" || endswith file "bottle.json".

(** The first loop over [zf.namelist()], which stops at the first hit. *)
Definition find_descriptor (namelist : list string) : option string :=
  List.find is_descriptor namelist.

(** [zf.extractall(base_dir)]: every file entry is written below the root
    (an entry whose name ends in a slash is a directory and holds no file).
    When the environment makes it raise, the entries before the failure
    stay extracted. *)
Definition extract_entries (entries : list (string * fdata))
    (dir : gmap string fdata) : gmap string fdata :=
  foldl (fun d e => if endswith e.1 "/" then d else <[e.1 := e.2]> d) dir entries.

Definition extractall (env : install_env) (entries : list (string * fdata))
    (base_dir : root_dir) : M world unit :=
  fun w => match extract_fault env with
           | Some (k, e) => (Raised e, set_dir base_dir (extract_entries (take k entries)) w)
           | None => (Ok tt, set_dir base_dir (extract_entries entries) w)
           end.

(** The macOS junk the two [rglob] loops remove: every file below a
    directory named [__MACOSX], and every file whose name ends in
    [.DS_Store].  (A directory with such a name would make [unlink] raise;
    directories are not files of the model.) *)
Definition is_junk (p : string) : bool :=
  let parts := components p in
  bool_decide ("__MACOSX" ∈ removelast parts) || endswith (List.last parts "") ".DS_Store".

Definition clean_junk (dir : gmap string fdata) : gmap string fdata :=
  filter (fun kv => is_junk kv.1 = false) dir.

(** The second loop over [zf.namelist()]: the first name ending in
    [gameinfo.xml] that is a file below the root after extraction. *)
Definition find_gameinfo (namelist : list string) (dir : gmap string fdata)
    : option string :=
  List.find (fun file => endswith file "gameinfo.xml" && bool_decide (is_Some (dir !! file)))
            namelist.

(** [is_port] and [base_dir]: the descriptor found selects the root. *)
Definition base_dir_of (target_json : string) : root_dir :=
  let is_port := endswith target_json "port.json" in
  if is_port then PORTS_DIR else WINDOWS_DIR.

(** The end of the [try] body: look for the extracted [gameinfo.xml] and
    merge it into the index of the root. *)
Definition merge_gameinfo (env : install_env) (zip_name : string)
    (base_dir : root_dir) (namelist : list string) : M world unit :=
  let gamelist_path := (base_dir, "gamelist.xml") in
  do gameinfo_file <- gets (fun w => find_gameinfo namelist (dir_of base_dir w));
  match gameinfo_file with
  | Some file =>
      do _ <- print (LogFoundGameinfo file);
      do _ <- gamelist_add env (base_dir, file) gamelist_path;
      ret tt
  | None => print (LogNoGameinfo zip_name)
  end.

(** The body of the [try] statement.  [Some status] is a [return] inside
    it, [None] falls through to the code after the handlers. *)
Definition install_body (env : install_env) (zip_name : string) (archive : staged)
    : M world (option Z) :=
  do entries <- ZipFile zip_name archive;
  match find_descriptor entries.*1 with
  | None =>
      do _ <- print (LogNoDescriptor zip_name);
      ret (Some 255)
  | Some target_json =>
      let base_dir := base_dir_of target_json in
      do _ <- print (LogExtract zip_name base_dir);
      do _ <- extractall env entries base_dir;
      do _ <- modify (set_dir base_dir clean_junk);
      do _ <- merge_gameinfo env zip_name base_dir entries.*1;
      ret None
  end.

Definition install_zip (env : install_env) (zip_name : string) : M world Z :=
  do zip_file <- gets (fun w => staging w !! zip_name);
  match zip_file with
  | None =>
      do _ <- print (LogNotFound zip_name);
      ret 255
  | Some archive =>
      do _ <- print (LogInstall zip_name);
      do returned <-
        try_except (install_body env zip_name archive)
          (fun e =>
             if is_BadZipFile e then
               do _ <- print (LogBadZip zip_name);
               ret (Some 255)
             else
               do _ <- print (LogInstallFailed zip_name e);
               ret (Some 255));
      match returned with
      | Some status => ret status
      | None =>
          do _ <- modify (set_staging (delete zip_name));
          do _ <- print (LogInstalled zip_name);
          ret 0
      end
  end.

(** ** Download worker ([Downloader.run]) *)

(** How a streamed transfer ends: at the end of the stream, the staged file
    having the given digest and, when it is a zip archive, entries; or with
    an exception raised by a read or a write. *)
Inductive stream_end :=
| Eof (md5 : string) (zip : option (list (string * fdata)))
| Breaks (e : exn).

(** What the network and the staging directory do to one transfer: the
    request or its [Content-Length] header raises; opening the staged file
    raises; or the stream delivers chunks of the given lengths and ends. *)
Inductive transfer :=
| ConnectFails (e : exn)
| OpenFails (e : exn)
| Stream (total : Z) (chunks : list positive) (ending : stream_end).

(** The environment of one queued request. *)
Record item_env := {
  ie_transfer : transfer;
  ie_ledger : write_env;
  ie_install : string -> install_env
}.

Definition put (e : event) : M world unit := modify (put_event e).

(** [_fail]: the failure event of the download stage, and the console line. *)
Definition _fail (port : Port) (msg : string) : M world unit :=
  do _ <- put (Event 0 1 (MFailed (port_name port +:+ ".zip") msg) StDownload);
  print (LogError msg).

(** A staged file of [n] bytes that is still being written (its digest is
    never taken). *)
Definition partial_file (n : Z) : staged :=
  {| st_size := n; st_md5 := ""; st_zip := None |}.

(** The read loop: each chunk is appended to the staged file and reported. *)
Fixpoint stream_chunks (zip_name title : string) (total : Z) (chunks : list positive)
    (downloaded : Z) : M world Z :=
  match chunks with
  | [] => ret downloaded
  | data :: rest =>
      let downloaded := downloaded + Z.pos data in
      do _ <- modify (set_staging (insert zip_name (partial_file downloaded)));
      do _ <- put (Event downloaded (if total =? 0 then downloaded else total)
                         (MChunk title) StDownload);
      stream_chunks zip_name title total rest downloaded
  end.

(** [zip_path.unlink()]: it removes the staged file when there is one and
    raises otherwise. *)
Definition unlink_staged (zip_name : string) : M world unit :=
  do present <- gets (fun w => staging w !! zip_name);
  match present with
  | Some _ => modify (set_staging (delete zip_name))
  | None => raise (Exn "FileNotFoundError" zip_name)
  end.

(** The [try] body of [_download_port]. *)
Definition download_body (env : item_env) (port : Port) (kind : string)
    : M world unit :=
  let zip_name := port_name port +:+ ".zip" in
  match ie_transfer env with
  | ConnectFails e => raise e
  | OpenFails e => raise e
  | Stream total chunks ending =>
      do _ <- modify (set_staging (insert zip_name (partial_file 0)));
      do downloaded <- stream_chunks zip_name (port_title port) total chunks 0;
      match ending with
      | Breaks e => raise e
      | Eof md5_hash zip =>
          do _ <- modify (set_staging (insert zip_name
                            {| st_size := downloaded; st_md5 := md5_hash; st_zip := zip |}));
          do _ <- put (Event downloaded downloaded (MDownloaded (port_title port))
                             StDownload);
          let port :=
            {| port_name := port_name port;
               port_title := port_title port;
               port_desc := port_desc port;
               port_download_url := port_download_url port;
               port_image_path := port_image_path port;
               port_date_updated := port_date_updated port;
               port_size := Some downloaded;
               port_md5 := Some md5_hash |} in
          _update_manifest (ie_ledger env) port kind
      end
  end.

Definition _download_port (env : item_env) (port : Port) (kind : string)
    : M world unit :=
  try_except (download_body env port kind)
    (fun e =>
       do _ <- _fail port (exn_type e +:+ ": " +:+ exn_msg e);
       suppress (unlink_staged (port_name port +:+ ".zip"))).

(** [sorted(self.autoinstall_dir.glob("*.zip"))], by file name. *)
Definition string_le (a b : string) : Prop := String.leb a b = true.

#[global] Instance string_le_dec : RelDecision string_le.
Proof. intros a b. unfold string_le. apply _. Defined.

Definition zip_files (w : world) : list string :=
  merge_sort string_le
    (filter (fun name => endswith name ".zip" = true) (elements (dom (staging w)))).

Fixpoint install_each (env : string -> install_env) (names : list string)
    : M world unit :=
  match names with
  | [] => ret tt
  | name :: rest =>
      do _ <- put (Event 0 1 (MInstalling name) StInstall);
      do result <- install_zip (env name) name;
      do _ <- put (Event 0 1 (if result =? 0 then MInstalled name
                              else MInstallFailed name) StInstall);
      install_each env rest
  end.

Definition _run_autoinstall (env : string -> install_env) : M world unit :=
  do names <- gets zip_files;
  match names with
  | [] => ret tt
  | _ =>
      do _ <- put (Event 0 1 MInstallingPackages StPhase);
      do _ <- install_each env names;
      put (Event 0 1 MInstallationComplete StInstall)
  end.

(** How the consumer loop ends on a queue no producer adds to: at the
    sentinel, or blocked in [get] on the empty queue. *)
Inductive run_end := Stopped | Waiting.

(** After an item: [if self.dl_queue.empty(): self._run_autoinstall()]. *)
Definition after_item (env : item_env) (rest : list (option (Port * string)))
    : M world unit :=
  match rest with
  | [] => _run_autoinstall (ie_install env)
  | _ => ret tt
  end.

(** The consumer loop over the queue, the [i]-th request meeting the
    environment [env i]. *)
Fixpoint run (env : nat -> item_env) (i : nat) (dl_queue : list (option (Port * string)))
    : M world run_end :=
  match dl_queue with
  | [] => ret Waiting
  | None :: _ => ret Stopped
  | Some (port, kind) :: rest =>
      do _ <- _download_port (env i) port kind;
      do _ <- after_item (env i) rest;
      run env (S i) rest
  end.

(** The error a transfer fails with, if it fails. *)
Definition failure_of (t : transfer) : option exn :=
  match t with
  | ConnectFails e | OpenFails e | Stream _ _ (Breaks e) => Some e
  | Stream _ _ (Eof _ _) => None
  end.

(** ** Image sync ([Downloader.fetch_repo_images]) *)

Record Repository := {
  repo_name : string;
  repo_url : string;
  repo_images_dir : option string;
  repo_images_zip_url : option string;
  repo_ports : list Port;
  repo_bottles : list Port
}.

(** A JSON scalar; [==] on these is equality. *)
Inductive jval := JNull | JNum (n : Z) | JStr (s : string).

#[global] Instance jval_eq_dec : EqDecision jval.
Proof. solve_decision. Defined.

(** What a file holds that an image archive extracts, or that sits in the
    image directory: a JSON object, seen through its [id] and [size]
    members (absent is [None]), or any other bytes, which [json.load]
    rejects. *)
Inductive idata :=
| IBytes (raw : string)
| IJson (id size : option jval).

(** A file of the image directory: such a file, or the temporary archive
    [images.zip], complete (with its entries when it is a zip archive) or
    cut short by a failed write. *)
Inductive ifile :=
| Plain (d : idata)
| Archive (entries : option (list (string * idata)))
| PartialArchive.

(** An asset of a release, as the JSON of the hosting platform lists it. *)
Record asset := {
  a_name : string;
  a_id : option jval;
  a_size : option jval;
  a_browser_download_url : option string
}.

(** The answer to the release query: the URL of the archive does not have
    the five path components, the request raises, or the release arrives
    with its [assets] (an absent list reads as empty). *)
Inductive query_result :=
| UrlMalformed
| QueryRaises (e : exn)
| Release (assets : list asset).

(** The steps of the replacement that the environment can make raise. *)
Inductive sync_step := AtFetch | AtZipWrite | AtExtract (k : nat).

Record sync_env := {
  s_release : query_result;
  s_payload : option (list (string * idata)); (* what the asset URL serves, as a zip *)
  s_fault : option (sync_step * exn)
}.

Inductive request := ApiQuery (url : string) | AssetDownload (url : string).

Inductive ilog :=
| ILogQueryFailed (name : string) (e : exn)
| ILogUpdated (name : string)
| ILogUpdateFailed (name : string) (e : exn).

(** The world of one image sync: the image directories by path (each a map
    from the path below it to the file), the requests sent, the console. *)
Record iworld := IWorld {
  idirs : gmap string (gmap string ifile);
  requests : list request;
  iout : list ilog
}.

(** The files of one image directory; none when it does not exist. *)
Definition idir (images_dir : string) (w : iworld) : gmap string ifile :=
  default ∅ (idirs w !! images_dir).

Definition set_idir (images_dir : string) (f : gmap string ifile -> gmap string ifile)
    (w : iworld) : iworld :=
  IWorld (<[images_dir := f (idir images_dir w)]> (idirs w)) (requests w) (iout w).

Definition send (r : request) (w : iworld) : iworld :=
  IWorld (idirs w) (requests w ++ [r]) (iout w).

Definition iprint (l : ilog) : M iworld unit :=
  modify (fun w => IWorld (idirs w) (requests w) (iout w ++ [l])).

(** [not s] for an optional string: [None] and the empty string are false. *)
Definition truthy (s : option string) : option string :=
  match s with
  | Some EmptyString => None
  | _ => s
  end.

(** [local_meta]: the object in [images.json], or [{}] when the file is
    missing or does not load; given as its [id] and [size] members. *)
Definition local_meta (dir : gmap string ifile) : option jval * option jval :=
  match dir !! "images.json" with
  | Some (Plain (IJson id size)) => (id, size)
  | _ => (None, None)
  end.

(** [d.get(key)] and [d.get(key, default)] on a member that may be absent. *)
Definition get (member : option jval) : jval := default JNull member.
Definition get_or (dflt : jval) (member : option jval) : jval := default dflt member.

(** The staleness test: both members of the cached descriptor equal the
    remote ones. *)
Definition up_to_date (meta : option jval * option jval) (remote_id remote_size : jval)
    : bool :=
  bool_decide (get meta.1 = remote_id) && bool_decide (get meta.2 = remote_size).

(** [next((a for a in assets if a["name"] == "images.zip"), None)] *)
Definition images_asset (assets : list asset) : option asset :=
  List.find (fun a => String.eqb (a_name a) "images.zip") assets.

Definition fault_at (env : sync_env) (is_step : sync_step -> bool) : option exn :=
  match s_fault env with
  | Some (s, e) => if is_step s then Some e else None
  | None => None
  end.

Definition is_AtFetch (s : sync_step) : bool :=
  match s with AtFetch => true | _ => false end.
Definition is_AtZipWrite (s : sync_step) : bool :=
  match s with AtZipWrite => true | _ => false end.

(** [_gh_request(asset["browser_download_url"], timeout=60)] *)
Definition download_asset (env : sync_env) (a : asset)
    : M iworld (option (list (string * idata))) :=
  match a_browser_download_url a with
  | None => raise (Exn "KeyError" "browser_download_url")
  | Some url =>
      do _ <- modify (send (AssetDownload url));
      match fault_at env is_AtFetch with
      | Some e => raise e
      | None => ret (s_payload env)
      end
  end.

(** [with open(img_zip, "wb") as f: f.write(data)] *)
Definition write_zip (env : sync_env) (images_dir : string)
    (data : option (list (string * idata))) : M iworld unit :=
  match fault_at env is_AtZipWrite with
  | Some e =>
      do _ <- modify (set_idir images_dir (insert "images.zip" PartialArchive));
      raise e
  | None => modify (set_idir images_dir (insert "images.zip" (Archive data)))
  end.

(** The loop that removes every item of the directory but the descriptor
    and the new archive. *)
Definition clean_old (dir : gmap string ifile) : gmap string ifile :=
  filter (fun kv => kv.1 = "images.json" \/ kv.1 = "images.zip") dir.

Definition extract_images (entries : list (string * idata))
    (dir : gmap string ifile) : gmap string ifile :=
  foldl (fun d e => if endswith e.1 "/" then d else <[e.1 := Plain e.2]> d) dir entries.

(** [with zipfile.ZipFile(img_zip, "r") as zf: zf.extractall(images_dir)] *)
Definition unzip_images (env : sync_env) (images_dir : string) : M iworld unit :=
  do zip <- gets (fun w => idir images_dir w !! "images.zip");
  match zip with
  | Some (Archive (Some entries)) =>
      match s_fault env with
      | Some (AtExtract k, e) =>
          do _ <- modify (set_idir images_dir (extract_images (take k entries)));
          raise e
      | _ => modify (set_idir images_dir (extract_images entries))
      end
  | _ => raise (Exn "BadZipFile" "File is not a zip file")
  end.

(** [img_zip.unlink()]: as for the ledger, it removes the file when there
    is one and raises otherwise. *)
Definition unlink_zip (images_dir : string) : M iworld unit :=
  do zip <- gets (fun w => idir images_dir w !! "images.zip");
  match zip with
  | Some _ => modify (set_idir images_dir (delete "images.zip"))
  | None => raise (Exn "FileNotFoundError" "images.zip")
  end.

(** The [try] body of the replacement. *)
Definition replace_images (env : sync_env) (repo : Repository) (images_dir : string)
    (a : asset) (remote_id remote_size : jval) : M iworld unit :=
  do data <- download_asset env a;
  do _ <- write_zip env images_dir data;
  do _ <- modify (set_idir images_dir clean_old);
  do _ <- unzip_images env images_dir;
  do _ <- modify (set_idir images_dir
                    (insert "images.json" (Plain (IJson (Some remote_id) (Some remote_size)))));
  do _ <- unlink_zip images_dir;
  iprint (ILogUpdated (repo_name repo)).

Definition fetch_repo_images (env : sync_env) (repo : Repository) : M iworld unit :=
  match truthy (repo_images_zip_url repo), truthy (repo_images_dir repo) with
  | Some images_zip_url, Some images_dir =>
      do _ <- modify (set_idir images_dir id);          (* mkdir, exist_ok *)
      do meta <- gets (fun w => local_meta (idir images_dir w));
      match s_release env with
      | UrlMalformed =>
          iprint (ILogQueryFailed (repo_name repo) (Exn "ValueError" "not enough values to unpack"))
      | QueryRaises e =>
          do _ <- modify (send (ApiQuery images_zip_url));
          iprint (ILogQueryFailed (repo_name repo) e)
      | Release assets =>
          do _ <- modify (send (ApiQuery images_zip_url));
          match images_asset assets with
          | None => ret tt
          | Some a =>
              let remote_id := get (a_id a) in
              let remote_size := get_or (JNum 0) (a_size a) in
              if up_to_date meta remote_id remote_size then ret tt
              else
                try_except (replace_images env repo images_dir a remote_id remote_size)
                  (fun e =>
                     do _ <- iprint (ILogUpdateFailed (repo_name repo) e);
                     suppress (unlink_zip images_dir))
          end
      end
  | _, _ => ret tt
  end.

(** The image set of a directory: its files but the descriptor and the
    temporary archive. *)
Definition image_set (dir : gmap string ifile) : gmap string ifile :=
  filter (fun kv => kv.1 <> "images.json" /\ kv.1 <> "images.zip") dir.

(** The directory after a replacement that failed while extracting, with
    [part] the entries extracted before the failure: the old descriptor if
    there was one, and over it the files of [part]; no old image. *)
Definition after_failed_extract (part : list (string * idata))
    (dir0 : gmap string ifile) : gmap string ifile :=
  delete "images.zip"
    (extract_images part (filter (fun kv => kv.1 = "images.json") dir0)).

(** The line the two handlers print for an exception. *)
Definition handler_line (zip_name : string) (e : exn) : log_msg :=
  if is_BadZipFile e then LogBadZip zip_name else LogInstallFailed zip_name e.

(** The world when the [try] body reaches the merge: the two lines are
    printed, the archive is extracted below the root and the junk is gone. *)
Definition extracted (zip_name : string) (base_dir : root_dir)
    (entries : list (string * fdata)) (w : world) : world :=
  set_dir base_dir clean_junk
    (set_dir base_dir (extract_entries entries)
       (logged [LogExtract zip_name base_dir] (logged [LogInstall zip_name] w))).

(** ** Sample data for the examples *)

Definition sample_game (p title : string) : elem :=
  Elem "game" None [Elem "path" (Some p) []; Elem "name" (Some title) []].

(** A source document: two entries with a path, one without, and a repeat
    of the first path. *)
Definition sample_gameinfo : elem :=
  Elem "gameList" None
    [sample_game "./a.sh" "A"; sample_game "./b.sh" "B";
     Elem "game" None [Elem "name" (Some "no path") []];
     sample_game "./a.sh" "A again"].

(** A library index that already lists [./b.sh]. *)
Definition sample_gamelist : elem :=
  Elem "gameList" None [sample_game "./b.sh" "B (installed)"].

Definition sample_archive : staged :=
  {| st_size := 4096;
     st_md5 := "0cc175b9c0f1b6a831c399e269772661";
     st_zip := Some [("game/port.json", Raw "{}");
                     ("gameinfo.xml", XmlOf sample_gameinfo);
                     ("game/run.sh", Raw "#!/bin/sh")] |}.

(** A world with one staged archive and the sample index in [PORTS_DIR];
    the source document is already extracted there. *)
Definition sample_world : world :=
  World {["game.zip" := sample_archive]}
        {["gamelist.xml" := XmlOf sample_gamelist;
          "gameinfo.xml" := XmlOf sample_gameinfo]}
        ∅ None None [] [] [] [].


(** A catalog source with an image archive, its image directory with two
    images and the descriptor [{id: 7, size: 1000}], and the remote asset
    with a new id. *)
Definition sample_repo : Repository :=
  {| repo_name := "ports";
     repo_url := "https://example.org/ports.json";
     repo_images_dir := Some "/images/ports";
     repo_images_zip_url :=
       Some "https://github.com/owner/repo/releases/download/latest/images.zip";
     repo_ports := [];
     repo_bottles := [] |}.

Definition sample_images : gmap string ifile :=
  {["a.png" := Plain (IBytes "old a");
    "shots/b.png" := Plain (IBytes "old b");
    "images.json" := Plain (IJson (Some (JNum 7)) (Some (JNum 1000)))]}.

Definition sample_iworld : iworld :=
  IWorld {["/images/ports" := sample_images]} [] [].

Definition sample_asset (id : Z) : asset :=
  {| a_name := "images.zip";
     a_id := Some (JNum id);
     a_size := Some (JNum 1000);
     a_browser_download_url := Some "https://example.org/images.zip" |}.

(** The environment in which the asset has id 8 and the URL serves bytes
    that are not a zip archive. *)
Definition serves_no_zip : sync_env :=
  {| s_release := Release [sample_asset 8]; s_payload := None; s_fault := None |}.

(** A package, and a queue environment in which its transfer breaks after
    one chunk while the next request succeeds. *)
Definition sample_port (name title : string) : Port :=
  {| port_name := name;
     port_title := title;
     port_desc := "Missing description";
     port_download_url := "https://example.org/" +:+ name +:+ ".zip";
     port_image_path := None;
     port_date_updated := None;
     port_size := None;
     port_md5 := None |}.

Definition sample_queue_env (i : nat) : item_env :=
  {| ie_transfer :=
       match i with
       | O => Stream 100 [60%positive] (Breaks (Exn "URLError" "connection reset"))
       | _ => Stream 0 [60%positive; 40%positive]
                (Eof "0cc175b9c0f1b6a831c399e269772661" (st_zip sample_archive))
       end;
     ie_ledger := no_fault;
     ie_install := fun _ => no_install_fault |}.

Definition empty_world : world := World ∅ ∅ ∅ None None [] [] [] [].

(** A ledger file with one port and one bottle. *)
Definition sample_entry (name title : string) : entry := asdict (sample_port name title).

Definition sample_ledger : mfile :=
  Json (<["ports" := [sample_entry "SuperTux" "SuperTux"]]>
          (<["bottles" := [sample_entry "notepad" "Notepad"]]> ∅)).

Definition ledger_world : world := World ∅ ∅ ∅ (Some sample_ledger) None [] [] [] [].

(** ** Update detection ([pharos.py], the manifest MD5 cache) *)

(** The loop that fills [local_md5s] from the ledger records, later
    records overwriting earlier ones; [entry["name"]] raises [KeyError] on
    a record without a name. *)
Fixpoint fill_md5s (entries : list entry) (local_md5s : gmap string (option string))
    : res (gmap string (option string)) :=
  match entries with
  | [] => Ok local_md5s
  | entry :: rest =>
      match e_name entry with
      | Some name => fill_md5s rest (<[name := e_md5 entry]> local_md5s)
      | None => Raised (Exn "KeyError" "name")
      end
  end.

(** The block that runs when [pharos.py] is imported: nothing is read when
    the ledger file is missing; a file that does not parse makes
    [json.load] raise, and nothing catches it. *)
Definition load_local_md5s (live : option mfile) : res (gmap string (option string)) :=
  match live with
  | None => Ok ∅
  | Some (Json manifest) =>
      fill_md5s (get_list manifest "ports" ++ get_list manifest "bottles") ∅
  | Some _ => Raised (Exn "JSONDecodeError" "manifest.json")
  end.

(** The truth value of an optional string: [None] and [""] are false. *)
Definition str_truthy (s : option string) : bool :=
  match s with
  | Some (String _ _) => true
  | _ => false
  end.

(** [bool(local_md5 and port.md5 and local_md5 != port.md5)] with
    [local_md5 = local_md5s.get(port.name)]. *)
Definition update_available (local_md5s : gmap string (option string)) (port : Port)
    : bool :=
  let local_md5 := default None (local_md5s !! port_name port) in
  str_truthy local_md5 && str_truthy (port_md5 port)
  && bool_decide (local_md5 <> port_md5 port).

(** ** The progress of a transfer ([Downloader._download_port]) *)

(** The byte count [downloaded] once the chunks are read, from a start. *)
Definition received (downloaded : Z) (chunks : list positive) : Z :=
  foldl (fun n data => n + Z.pos data) downloaded chunks.

(** The events the read loop puts, one per chunk. *)
Fixpoint chunk_events (title : string) (total : Z) (chunks : list positive)
    (downloaded : Z) : list event :=
  match chunks with
  | [] => []
  | data :: rest =>
      let downloaded := downloaded + Z.pos data in
      Event downloaded (if total =? 0 then downloaded else total) (MChunk title) StDownload
        :: chunk_events title total rest downloaded
  end.

(** [port] after [port.md5 = md5_hash] and [port.size = st_size]. *)
Definition with_fingerprint (port : Port) (size : Z) (md5_hash : string) : Port :=
  {| port_name := port_name port;
     port_title := port_title port;
     port_desc := port_desc port;
     port_download_url := port_download_url port;
     port_image_path := port_image_path port;
     port_date_updated := port_date_updated port;
     port_size := Some size;
     port_md5 := Some md5_hash |}.

(** ** What an install leaves alone *)

(** The relation between the worlds before and after a step of an install
    into the root [base_dir]: the ledger, its temporary file and the
    progress queue are as they were, the other root is as it was, and
    every file of [base_dir] that is no macOS junk is still there. *)
Definition install_frame (base_dir : root_dir) (w w' : world) : Prop :=
  ledger w' = ledger w /\ ledger_tmp w' = ledger_tmp w /\
  ledger_seen w' = ledger_seen w /\ progress_q w' = progress_q w /\
  (forall r, r <> base_dir -> dir_of r w' = dir_of r w) /\
  (forall p, is_junk p = false ->
     is_Some (dir_of base_dir w !! p) -> is_Some (dir_of base_dir w' !! p)).

(** ** The events of the install phase ([Downloader._run_autoinstall]) *)

(** The two events put for one archive: the announcement, and the outcome
    by the status [install_zip] returned. *)
Definition install_events (name : string) (result : Z) : list event :=
  [Event 0 1 (MInstalling name) StInstall;
   Event 0 1 (if result =? 0 then MInstalled name else MInstallFailed name) StInstall].

(* ================================================================== *)
(** * Properties *)

Example lower_mixed : lower "SuperTux 2" = "supertux 2".
Proof. reflexivity. Qed.

(** ** Fingerprint ledger *)

Section Ledger.
Implicit Types (data : manifest) (l : list entry) (d : entry).

Lemma key_other_key kind : key_of kind <> other_key_of kind.
Proof. unfold key_of, other_key_of. destruct (String.eqb kind "port"); discriminate. Qed.

(** The two partitions of the updated document. *)
Lemma updated_key data port kind :
  get_list (updated data port kind) (key_of kind) =
  filter (fun d => lower (get_name d) <> lower (port_name port))
         (get_list data (key_of kind)) ++ [asdict port].
Proof.
  unfold updated, get_list.
  rewrite lookup_insert_ne by (apply not_eq_sym, key_other_key).
  now rewrite !lookup_insert_eq.
Qed.

Lemma updated_other_key data port kind :
  get_list (updated data port kind) (other_key_of kind) =
  get_list data (other_key_of kind).
Proof.
  unfold updated, get_list.
  rewrite lookup_insert_eq. cbn.
  now rewrite !lookup_insert_ne by apply key_other_key.
Qed.

(** Keys that are no partition of this kind keep their value. *)
Lemma updated_elsewhere data port kind k :
  k <> key_of kind -> k <> other_key_of kind ->
  updated data port kind !! k = data !! k.
Proof.
  intros H1 H2. unfold updated.
  now rewrite !lookup_insert_ne by congruence.
Qed.





End Ledger.

(** The write and rename sequence when no step fails: the ledger holds the
    new document, the temporary file is gone, and a reader saw the old file
    four times and then the new one. *)
Lemma write_and_replace_ok n data w :
  write_and_replace {| w_fault := None; w_spilled := n |} data w =
  (Ok tt,
   World (staging w) (ports_dir w) (windows_dir w) (Some (Json data)) None
         (ledger_seen w ++ [ledger w; ledger w; ledger w; ledger w; Some (Json data)])
         (tree_writes w) (progress_q w) (stdout w)).
Proof.
  destruct w as [st pd wd lv tp seen tw q out].
  unfold write_and_replace, file_op, fails_at, bind, observe, set_ledger_tmp, set_ledger.
  cbn. now rewrite <- !app_assoc.
Qed.

(** When a step fails, the exception leaves the [try] body with the ledger
    as it was, and a reader saw nothing but the old file. *)
Lemma write_and_replace_fails s e n data w :
  exists tmp' k,
    write_and_replace {| w_fault := Some (s, e); w_spilled := n |} data w =
    (Raised e,
     World (staging w) (ports_dir w) (windows_dir w) (ledger w) tmp'
           (ledger_seen w ++ replicate k (ledger w))
           (tree_writes w) (progress_q w) (stdout w)).
Proof.
  destruct w as [st pd wd lv tp seen tw q out].
  unfold write_and_replace, file_op, fails_at, bind, observe, set_ledger_tmp, set_ledger.
  destruct s; cbn; rewrite <- ?app_assoc; cbn.
  - now exists tp, 1%nat.
  - now exists (Some (Prefix data n)), 2%nat.
  - now exists (Some (Prefix data n)), 3%nat.
  - now exists (Some (Json data)), 4%nat.
  - now exists (Some (Json data)), 5%nat.
Qed.

(** The handler of [_update_manifest]: it prints the failure and removes the
    temporary file, whether or not that file was ever created. *)
Lemma manifest_handler_removes_tmp e w :
  exists k,
    (do _ <- print (LogManifestFailed e); suppress unlink_tmp) w =
    (Ok tt,
     World (staging w) (ports_dir w) (windows_dir w) (ledger w) None
           (ledger_seen w ++ replicate k (ledger w))
           (tree_writes w) (progress_q w) (stdout w ++ [LogManifestFailed e])).
Proof.
  destruct w as [st pd wd lv [t|] seen tw q out];
    unfold bind, print, modify, suppress, try_except, unlink_tmp, observe,
           set_ledger_tmp, ret, logged; cbn.
  - now exists 1%nat.
  - exists 0%nat. cbn. now rewrite app_nil_r.
Qed.

Lemma update_manifest_unfold env port kind w :
  _update_manifest env port kind w =
  match write_and_replace env (updated (load_manifest (ledger w)) port kind) w with
  | (Ok a, w') => (Ok a, w')
  | (Raised e, w') => (do _ <- print (LogManifestFailed e); suppress unlink_tmp) w'
  end.
Proof. reflexivity. Qed.



(** C2.  The ledger write is atomic.  Whatever step of the write and rename
    sequence fails, or none: the call returns normally; every content a
    reader of the ledger path saw during the call is the old file or the
    complete new document; the temporary file is gone at the end; without a
    failure the ledger holds the new document, and with one the failure is
    printed and the ledger is the old file, unchanged. *)
Theorem ledger_write_atomic (env : write_env) (port : Port) (kind : string) (w : world) :
  let new := Json (updated (load_manifest (ledger w)) port kind) in
  let r := _update_manifest env port kind w in
  result_of r = Ok tt /\
  (exists obs, ledger_seen (state_of r) = ledger_seen w ++ obs /\
               Forall (fun x => x = ledger w \/ x = Some new) obs) /\
  ledger_tmp (state_of r) = None /\
  match w_fault env with
  | None => ledger (state_of r) = Some new /\ stdout (state_of r) = stdout w
  | Some (s, e) =>
      ledger (state_of r) = ledger w /\
      stdout (state_of r) = stdout w ++ [LogManifestFailed e]
  end.
Proof.
  intros new r. subst r new.
  destruct env as [[[s e]|] n]; rewrite update_manifest_unfold.
  - destruct (write_and_replace_fails s e n
                (updated (load_manifest (ledger w)) port kind) w) as (tmp' & k & ->).
    match goal with |- context [bind ?m ?f ?w1] =>
      destruct (manifest_handler_removes_tmp e w1) as (k' & ->) end.
    cbn. repeat split.
    exists (replicate k (ledger w) ++ replicate k' (ledger w)).
    split; [now rewrite app_assoc|].
    apply Forall_app; split; apply Forall_replicate; now left.
  - rewrite write_and_replace_ok. cbn. repeat split.
    eexists; split; [reflexivity|].
    repeat first [apply List.Forall_nil | apply List.Forall_cons]; auto.
Qed.

(** ** Metadata merge *)

Section Merge.
Implicit Types (E : gset (option string)) (games new : list elem) (g : elem).

(** The loop only ever extends the children and the count it is given. *)
Lemma merge_loop_frame games ch E c :
  merge_loop games ch E c =
  (ch ++ (merge_loop games [] E 0).1.1,
   (merge_loop games [] E 0).1.2,
   (c + (merge_loop games [] E 0).2)%nat).
Proof.
  revert ch E c. induction games as [|g games IH]; intros ch E c; cbn.
  - now rewrite app_nil_r, Nat.add_0_r.
  - destruct (find "path" g) as [pe|]; [|apply IH].
    destruct (decide (text pe ∉ E)); [|apply IH].
    rewrite (IH (ch ++ [g])), (IH [g]). cbn.
    now rewrite <- app_assoc, Nat.add_succ_r.
Qed.


Lemma appended_cons E g games :
  appended E (g :: games) =
  match path_of g with
  | Some p => if decide (p ∉ E) then g :: appended ({[p]} ∪ E) games
              else appended E games
  | None => appended E games
  end.
Proof.
  unfold appended, path_of. cbn.
  destruct (find "path" g) as [pe|]; cbn; [|reflexivity].
  destruct (decide (text pe ∉ E)); [|reflexivity].
  now rewrite merge_loop_frame.
Qed.

(** The count the loop keeps is the number of entries it appended, and the
    set it keeps is the old one with their paths. *)
Lemma merge_loop_appended games ch E c :
  merge_loop games ch E c =
  (ch ++ appended E games,
   E ∪ paths_of (appended E games),
   (c + length (appended E games))%nat).
Proof.
  revert ch E c. induction games as [|g games IH]; intros ch E c.
  - cbn. rewrite app_nil_r, Nat.add_0_r. f_equal. f_equal.
    unfold paths_of. cbn. set_solver.
  - rewrite appended_cons. cbn. unfold path_of.
    destruct (find "path" g) as [pe|] eqn:Hf; cbn; [|apply IH].
    destruct (decide (text pe ∉ E)); [|apply IH].
    rewrite IH. cbn. rewrite <- app_assoc, Nat.add_succ_r. cbn.
    f_equal. f_equal. unfold paths_of. cbn. unfold path_of at 2. rewrite Hf. cbn.
    set_solver.
Qed.

Lemma appended_sublist E games : appended E games `sublist_of` games.
Proof.
  revert E. induction games as [|g games IH]; intros E; [constructor|].
  rewrite appended_cons.
  destruct (path_of g) as [p|]; [destruct (decide (p ∉ E))|];
    auto using sublist_skip, sublist_cons.
Qed.

Lemma appended_has_path E games :
  Forall (fun g => path_of g <> None) (appended E games).
Proof.
  revert E. induction games as [|g games IH]; intros E; [constructor|].
  rewrite appended_cons.
  destruct (path_of g) as [p|] eqn:Hp; [destruct (decide (p ∉ E))|]; auto.
  constructor; [congruence|apply IH].
Qed.







End Merge.

(** Loading the index never raises and changes no file; it yields the root
    of the file when it parses, and an empty [gameList] otherwise. *)
Lemma load_gamelist_run gamelist_path w :
  exists root ls,
    load_gamelist gamelist_path w = (Ok root, logged ls w) /\
    match read_file gamelist_path w with
    | Some (XmlOf r) => children root = children r /\ text root = text r
    | _ => root = Elem "gameList" None []
    end.
Proof.
  unfold load_gamelist, bind, gets, try_except_if, ET_parse, print, modify, ret.
  destruct (read_file gamelist_path w) as [[b|r]|] eqn:Hr; cbn; rewrite ?Hr; cbn.
  - exists (Elem "gameList" None []), [LogCorruptGamelist]. auto.
  - exists (if decide (lower (tag r) <> "gamelist")
            then Elem "gameList" (text r) (children r) else r), [].
    split.
    + f_equal. destruct w; unfold logged; cbn. now rewrite app_nil_r.
    + now destruct (decide (lower (tag r) <> "gamelist")).
  - exists (Elem "gameList" None []), [LogCreate]. auto.
Qed.


(** What [gamelist_add] does when the source document parses. *)
Lemma gamelist_add_run env gameinfo_file gamelist_path w src root w1 :
  read_file gameinfo_file w = Some (XmlOf src) ->
  load_gamelist gamelist_path w = (Ok root, w1) ->
  let new := appended (paths_in root) (findall "game" src) in
  gamelist_add env gameinfo_file gamelist_path w =
  if decide (new = []) then (Ok PyNone, logged [LogNoNew gameinfo_file.2] w1)
  else match index_write_fault env with
       | Some e => (Raised e, w1)
       | None =>
           (Ok PyNone,
            logged [LogAdded (length new)]
              (log_tree_write gamelist_path
                 (set_dir gamelist_path.1
                    (insert gamelist_path.2
                       (XmlOf (Elem (tag root) (text root) (children root ++ new))))
                    w1)))
       end.
Proof.
  intros Hsrc Hload new. unfold gamelist_add.
  unfold bind at 1. unfold try_except_if, bind at 1, ET_parse. rewrite Hsrc. cbn.
  unfold bind at 1. rewrite Hload.
  rewrite merge_loop_appended. fold new. cbn [fst snd].
  destruct (decide (0 < 0 + length new)%nat) as [Hc|Hc], (decide (new = [])) as [Hn|Hn].
  - rewrite Hn in Hc. cbn in Hc. lia.
  - unfold bind, tree_write, print, modify, ret.
    destruct (index_write_fault env); reflexivity.
  - reflexivity.
  - destruct new; [congruence|cbn in Hc; lia].
Qed.

Lemma gamelist_add_unparsable env gameinfo_file gamelist_path w b :
  read_file gameinfo_file w = Some (Raw b) ->
  gamelist_add env gameinfo_file gamelist_path w =
  (Ok PyNone, logged [LogBadGameinfo gameinfo_file.2] w).
Proof.
  intros H. unfold gamelist_add, bind at 1, try_except_if, bind at 1, ET_parse.
  now rewrite H.
Qed.

Lemma gamelist_add_missing env gameinfo_file gamelist_path w :
  read_file gameinfo_file w = None ->
  gamelist_add env gameinfo_file gamelist_path w =
  (Raised (Exn "FileNotFoundError" gameinfo_file.2), w).
Proof.
  intros H. unfold gamelist_add, bind at 1, try_except_if, bind at 1, ET_parse.
  now rewrite H.
Qed.






(** On the sample world the merge appends [./a.sh] once, after the entry the
    index had, and drops the entry without a path and the repeat. *)
Example gamelist_add_sample :
  let r := gamelist_add no_install_fault (PORTS_DIR, "gameinfo.xml")
             (PORTS_DIR, "gamelist.xml") sample_world in
  read_file (PORTS_DIR, "gamelist.xml") (state_of r) =
    Some (XmlOf (Elem "gameList" None
                   [sample_game "./b.sh" "B (installed)"; sample_game "./a.sh" "A"])) /\
  stdout (state_of r) = [LogAdded 1].
Proof. vm_compute. split; reflexivity. Qed.

(** C4, as stated, fails: on the sample world the merge adds one entry to
    the index and returns [None], not the count 1. *)
Lemma gamelist_add_returns_no_count :
  let gamelist_path := (PORTS_DIR, "gamelist.xml") in
  let r := gamelist_add no_install_fault (PORTS_DIR, "gameinfo.xml") gamelist_path
             sample_world in
  read_file gamelist_path sample_world = Some (XmlOf sample_gamelist) /\
  read_file gamelist_path (state_of r) =
    Some (XmlOf (Elem "gameList" None
                   (children sample_gamelist ++ [sample_game "./a.sh" "A"]))) /\
  result_of r = Ok PyNone /\
  result_of r <> Ok (PyInt 1).
Proof. vm_compute. repeat split; discriminate. Qed.

(** C4, amended.  [gamelist_add] returns no value: whenever it returns, it
    returns [None].  The count of newly added entries is only printed: when
    the source parses and the index is written, the last line printed is
    [Added n game(s)] with [n] the number of entries appended to the
    index. *)
Theorem gamelist_add_returns_none (env : install_env) (gameinfo_file gamelist_path : path)
    (w : world) :
  let r := gamelist_add env gameinfo_file gamelist_path w in
  (forall v, result_of r = Ok v -> v = PyNone) /\
  (forall src root w1,
     read_file gameinfo_file w = Some (XmlOf src) ->
     load_gamelist gamelist_path w = (Ok root, w1) ->
     index_write_fault env = None ->
     let new := appended (paths_in root) (findall "game" src) in
     new <> [] ->
     read_file gamelist_path (state_of r) =
       Some (XmlOf (Elem (tag root) (text root) (children root ++ new))) /\
     stdout (state_of r) = stdout w1 ++ [LogAdded (length new)]).
Proof.
  intros r. subst r. split.
  - intros v.
    destruct (read_file gameinfo_file w) as [[b|src]|] eqn:Hsrc.
    + rewrite (gamelist_add_unparsable _ _ _ _ _ Hsrc). cbn. congruence.
    + destruct (load_gamelist_run gamelist_path w) as (root & ls & Hload & _).
      rewrite (gamelist_add_run env _ _ _ _ _ _ Hsrc Hload).
      destruct (decide _); [cbn; congruence|].
      destruct (index_write_fault env); cbn; congruence.
    + rewrite (gamelist_add_missing _ _ _ _ Hsrc). cbn. congruence.
  - intros src root w1 Hsrc Hload Hw new Hne.
    rewrite (gamelist_add_run env _ _ _ _ _ _ Hsrc Hload). fold new.
    rewrite decide_False by exact Hne. rewrite Hw.
    destruct gamelist_path as [[] f]; cbn; (split; [apply lookup_insert_eq|reflexivity]).
Qed.

Lemma gamelist_add_returns_none_witness :
  result_of (gamelist_add no_install_fault (PORTS_DIR, "gameinfo.xml")
               (PORTS_DIR, "gamelist.xml") sample_world) = Ok PyNone.
Proof.
  destruct (gamelist_add_returns_none no_install_fault (PORTS_DIR, "gameinfo.xml")
              (PORTS_DIR, "gamelist.xml") sample_world) as [Hnone _].
  destruct (result_of _) as [v|e] eqn:Hr.
  - now rewrite (Hnone v eq_refl).
  - vm_compute in Hr. discriminate Hr.
Defined.

(** C10.  A source entry without a [path] child is never appended and never
    counted.  Whatever the loop is given, it appends a list [new] of source
    entries that all have a path, it raises the count by the length of
    [new], and it does the same on the source with the entries without a
    path removed; the set of paths of the index is built from the entries
    with a path alone.  So [gamelist_add], for every source document and
    every state of the index, writes an index whose added entries all have
    a path and prints their number. *)
Theorem merge_skips_entries_without_path (games ch : list elem)
    (E : gset (option string)) (c : nat) :
  let has_path := fun g : elem => path_of g <> None in
  (exists new,
     merge_loop games ch E c = (ch ++ new, E ∪ paths_of new, (c + length new)%nat) /\
     new `sublist_of` games /\
     Forall has_path new) /\
  merge_loop (filter has_path games) ch E c = merge_loop games ch E c /\
  paths_of (filter has_path games) = paths_of games /\
  (forall env gameinfo_file gamelist_path w src root w1,
     read_file gameinfo_file w = Some (XmlOf src) ->
     load_gamelist gamelist_path w = (Ok root, w1) ->
     index_write_fault env = None ->
     let new := appended (paths_in root) (findall "game" src) in
     let w' := state_of (gamelist_add env gameinfo_file gamelist_path w) in
     Forall has_path new /\
     stdout w' = stdout w1 ++ [if decide (new = []) then LogNoNew gameinfo_file.2
                               else LogAdded (length new)] /\
     (new <> [] -> read_file gamelist_path w' =
        Some (XmlOf (Elem (tag root) (text root) (children root ++ new))))).
Proof.
  intros has_path. split; [|split; [|split]].
  - exists (appended E games).
    split; [apply merge_loop_appended|].
    split; [apply appended_sublist|apply appended_has_path].
  - revert ch E c. induction games as [|g games IH]; intros ch E c; [reflexivity|].
    destruct (decide (has_path g)) as [Hp|Hp].
    + rewrite filter_cons_True by exact Hp. cbn.
      destruct (find "path" g); [|apply IH].
      destruct (decide _); apply IH.
    + rewrite filter_cons_False by exact Hp. rewrite IH. cbn.
      unfold has_path, path_of in Hp.
      destruct (find "path" g); [|reflexivity].
      exfalso. apply Hp. discriminate.
  - unfold paths_of. f_equal.
    induction games as [|g games IH]; [reflexivity|].
    destruct (decide (has_path g)) as [Hp|Hp].
    + rewrite filter_cons_True by exact Hp. cbn. now rewrite IH.
    + rewrite filter_cons_False by exact Hp. cbn.
      unfold has_path in Hp. destruct (path_of g); [|exact IH].
      exfalso. apply Hp. discriminate.
  - intros env gameinfo_file gamelist_path w src root w1 Hsrc Hload Hw new w'.
    split; [apply appended_has_path|].
    subst w'. rewrite (gamelist_add_run env _ _ _ _ _ _ Hsrc Hload). fold new.
    rewrite Hw. destruct (decide (new = [])) as [He|Hne]; cbn.
    + split; [reflexivity|]. intros Hne. contradiction.
    + destruct gamelist_path as [[] f]; cbn;
        (split; [reflexivity|]); intros _; apply lookup_insert_eq.
Qed.

Lemma merge_skips_entries_without_path_witness :
  Elem "game" None [Elem "name" (Some "no path") []] ∈ findall "game" sample_gameinfo /\
  merge_loop (filter (fun g => path_of g <> None) (findall "game" sample_gameinfo))
             (children sample_gamelist) (paths_in sample_gamelist) 0 =
  merge_loop (findall "game" sample_gameinfo)
             (children sample_gamelist) (paths_in sample_gamelist) 0.
Proof.
  split.
  - vm_compute. do 2 right. left.
  - apply (merge_skips_entries_without_path (findall "game" sample_gameinfo)
             (children sample_gamelist) (paths_in sample_gamelist) 0).
Defined.

(** ** Install engine *)

Lemma staging_set_dir r f w : staging (set_dir r f w) = staging w.
Proof. now destruct r. Qed.

Lemma staging_logged ls w : staging (logged ls w) = staging w.
Proof. reflexivity. Qed.

(** The merge never touches the staging directory. *)
Lemma gamelist_add_staging env gameinfo_file gamelist_path w :
  staging (state_of (gamelist_add env gameinfo_file gamelist_path w)) = staging w.
Proof.
  destruct (read_file gameinfo_file w) as [[b|src]|] eqn:Hsrc.
  - now rewrite (gamelist_add_unparsable _ _ _ _ _ Hsrc).
  - destruct (load_gamelist_run gamelist_path w) as (root & ls & Hload & _).
    rewrite (gamelist_add_run env _ _ _ _ _ _ Hsrc Hload).
    destruct (decide _); [reflexivity|].
    destruct (index_write_fault env); [reflexivity|].
    cbn. now rewrite staging_set_dir.
  - now rewrite (gamelist_add_missing _ _ _ _ Hsrc).
Qed.

Lemma merge_gameinfo_staging env zip_name base_dir namelist w :
  staging (state_of (merge_gameinfo env zip_name base_dir namelist w)) = staging w.
Proof.
  unfold merge_gameinfo, bind at 1, gets.
  destruct (find_gameinfo namelist (dir_of base_dir w)) as [file|]; [|reflexivity].
  unfold bind at 1, print, modify. unfold bind.
  pose proof (gamelist_add_staging env (base_dir, file) (base_dir, "gamelist.xml")
                (logged [LogFoundGameinfo file] w)) as H.
  unfold state_of in H.
  destruct (gamelist_add _ _ _ _) as [[v|e] w3]; cbn in *; exact H.
Qed.

(** [install_zip], case by case. *)
Ltac run_install :=
  cbv beta iota zeta delta
    [install_zip install_body bind gets print modify try_except ZipFile
     extractall ret raise].

Lemma install_zip_missing env zip_name w :
  staging w !! zip_name = None ->
  install_zip env zip_name w = (Ok 255, logged [LogNotFound zip_name] w).
Proof. intros H. run_install. now rewrite H. Qed.

Lemma install_zip_bad_zip env zip_name w archive :
  staging w !! zip_name = Some archive -> st_zip archive = None ->
  install_zip env zip_name w =
  (Ok 255, logged [LogBadZip zip_name] (logged [LogInstall zip_name] w)).
Proof. intros H Hz. run_install. rewrite H. run_install. now rewrite Hz. Qed.

Lemma install_zip_no_descriptor env zip_name w archive entries :
  staging w !! zip_name = Some archive -> st_zip archive = Some entries ->
  find_descriptor entries.*1 = None ->
  install_zip env zip_name w =
  (Ok 255, logged [LogNoDescriptor zip_name] (logged [LogInstall zip_name] w)).
Proof.
  intros H Hz Hd. run_install. rewrite H. run_install. rewrite Hz. run_install.
  now rewrite Hd.
Qed.

Lemma install_zip_extract_fails env zip_name w archive entries target_json k e :
  staging w !! zip_name = Some archive -> st_zip archive = Some entries ->
  find_descriptor entries.*1 = Some target_json ->
  extract_fault env = Some (k, e) ->
  let base_dir := base_dir_of target_json in
  install_zip env zip_name w =
  (Ok 255,
   logged [handler_line zip_name e]
     (set_dir base_dir (extract_entries (take k entries))
        (logged [LogExtract zip_name base_dir] (logged [LogInstall zip_name] w)))).
Proof.
  intros H Hz Hd Hx base_dir. run_install. rewrite H. run_install. rewrite Hz.
  run_install. rewrite Hd. run_install. rewrite Hx. run_install.
  unfold handler_line. fold base_dir. destruct (is_BadZipFile e); reflexivity.
Qed.

Lemma install_zip_extracted env zip_name w archive entries target_json :
  staging w !! zip_name = Some archive -> st_zip archive = Some entries ->
  find_descriptor entries.*1 = Some target_json ->
  extract_fault env = None ->
  let base_dir := base_dir_of target_json in
  install_zip env zip_name w =
  match merge_gameinfo env zip_name base_dir entries.*1
          (extracted zip_name base_dir entries w) with
  | (Ok _, w3) => (Ok 0, logged [LogInstalled zip_name] (set_staging (delete zip_name) w3))
  | (Raised e, w3) => (Ok 255, logged [handler_line zip_name e] w3)
  end.
Proof.
  intros H Hz Hd Hx base_dir. run_install. rewrite H. run_install. rewrite Hz.
  run_install. rewrite Hd. run_install. rewrite Hx. run_install.
  fold base_dir.
  change (set_dir base_dir clean_junk _) with (extracted zip_name base_dir entries w).
  destruct (merge_gameinfo _ _ _ _ _) as [[[]|e] w3]; [reflexivity|].
  unfold handler_line. destruct (is_BadZipFile e); reflexivity.
Qed.


(** Every way [install_zip] can end for a staged archive: the status, and
    what is left of the staging directory. *)
Lemma install_zip_cases env zip_name w archive :
  staging w !! zip_name = Some archive ->
  let r := install_zip env zip_name w in
  (result_of r = Ok 255 /\ staging (state_of r) = staging w /\
   (st_zip archive = None \/
    (exists entries, st_zip archive = Some entries /\ find_descriptor entries.*1 = None) \/
    (exists entries target_json k e,
       st_zip archive = Some entries /\ find_descriptor entries.*1 = Some target_json /\
       extract_fault env = Some (k, e)) \/
    (exists entries target_json e,
       st_zip archive = Some entries /\ find_descriptor entries.*1 = Some target_json /\
       extract_fault env = None /\
       result_of (merge_gameinfo env zip_name (base_dir_of target_json) entries.*1
                    (extracted zip_name (base_dir_of target_json) entries w)) = Raised e)))
  \/
  (result_of r = Ok 0 /\ staging (state_of r) = delete zip_name (staging w) /\
   exists entries target_json,
     st_zip archive = Some entries /\ find_descriptor entries.*1 = Some target_json /\
     extract_fault env = None /\
     result_of (merge_gameinfo env zip_name (base_dir_of target_json) entries.*1
                  (extracted zip_name (base_dir_of target_json) entries w)) = Ok tt).
Proof.
  intros H r. subst r.
  destruct (st_zip archive) as [entries|] eqn:Hz;
    [|left; rewrite (install_zip_bad_zip _ _ _ _ H Hz); cbn; auto].
  destruct (find_descriptor entries.*1) as [target_json|] eqn:Hd;
    [|left; rewrite (install_zip_no_descriptor _ _ _ _ _ H Hz Hd);
      split; [reflexivity|split; [reflexivity|right; left; exists entries; auto]]].
  destruct (extract_fault env) as [[k e]|] eqn:Hx.
  { left. rewrite (install_zip_extract_fails _ _ _ _ _ _ _ _ H Hz Hd Hx). cbn.
    rewrite staging_set_dir. cbn. split; [reflexivity|]. split; [reflexivity|].
    right. right. left. eauto 8. }
  rewrite (install_zip_extracted _ _ _ _ _ _ H Hz Hd Hx).
  pose proof (merge_gameinfo_staging env zip_name (base_dir_of target_json) entries.*1
                (extracted zip_name (base_dir_of target_json) entries w)) as Hs.
  unfold extracted in Hs at 2. rewrite !staging_set_dir, !staging_logged in Hs.
  unfold state_of in Hs.
  destruct (merge_gameinfo _ _ _ _ _) as [[[]|e] w3] eqn:Hm; cbn in Hs.
  - right. unfold result_of, state_of. cbn [fst snd].
    split; [reflexivity|]. split; [cbn; now rewrite Hs|].
    exists entries, target_json. rewrite Hm. auto.
  - left. unfold result_of, state_of. cbn [fst snd].
    split; [reflexivity|]. split; [exact Hs|].
    right. right. right. exists entries, target_json, e. rewrite Hm. auto.
Qed.



Lemma merge_gameinfo_run env zip_name base_dir namelist w file :
  find_gameinfo namelist (dir_of base_dir w) = Some file ->
  merge_gameinfo env zip_name base_dir namelist w =
  match gamelist_add env (base_dir, file) (base_dir, "gamelist.xml")
          (logged [LogFoundGameinfo file] w) with
  | (Ok _, w3) => (Ok tt, w3)
  | (Raised e, w3) => (Raised e, w3)
  end.
Proof.
  intros H. unfold merge_gameinfo, bind at 1, gets. rewrite H.
  unfold bind at 1, print, modify. unfold bind at 1.
  now destruct (gamelist_add _ _ _ _) as [[v|e] w3].
Qed.




(** ** Image sync *)

Section ImageSync.
Implicit Types (dir : gmap string ifile) (w : iworld).

Lemma idir_set_idir d f w : idir d (set_idir d f w) = f (idir d w).
Proof. unfold idir, set_idir. cbn. now rewrite lookup_insert_eq. Qed.

Lemma idir_iworld d w rq out : idir d (IWorld (idirs w) rq out) = idir d w.
Proof. reflexivity. Qed.

(** [mkdir(exist_ok=True)] on a directory that exists changes nothing. *)
Lemma mkdir_existing d dir w : idirs w !! d = Some dir -> set_idir d id w = w.
Proof.
  intros H. destruct w as [ds rq out]. unfold set_idir, idir. cbn in *.
  rewrite H. cbn. now rewrite insert_id.
Qed.

Lemma clean_old_lookup dir k :
  clean_old dir !! k =
  if decide (k = "images.json" \/ k = "images.zip") then dir !! k else None.
Proof.
  unfold clean_old. rewrite map_lookup_filter.
  destruct (dir !! k) as [x|]; cbn; [|now destruct (decide _)].
  destruct (decide (k = "images.json" \/ k = "images.zip")) as [H|H].
  - now rewrite option_guard_True.
  - now rewrite option_guard_False.
Qed.

Lemma image_set_lookup dir k :
  image_set dir !! k =
  if decide (k <> "images.json" /\ k <> "images.zip") then dir !! k else None.
Proof.
  unfold image_set. rewrite map_lookup_filter.
  destruct (dir !! k) as [x|]; cbn; [|now destruct (decide _)].
  destruct (decide (k <> "images.json" /\ k <> "images.zip")) as [H|H].
  - now rewrite option_guard_True.
  - now rewrite option_guard_False.
Qed.

(** Extraction writes over what the directory holds, entry by entry. *)
Lemma extract_images_lookup entries dir k :
  extract_images entries dir !! k =
  match extract_images entries ∅ !! k with
  | Some v => Some v
  | None => dir !! k
  end.
Proof.
  unfold extract_images.
  induction entries as [|[n v] entries IH] using rev_ind; [reflexivity|].
  rewrite !foldl_snoc. cbn [fst snd].
  destruct (endswith n "/"); [exact IH|].
  destruct (decide (n = k)) as [->|Hne].
  - now rewrite !lookup_insert_eq.
  - now rewrite !lookup_insert_ne.
Qed.

(** The directory after a replacement in which every step succeeds: the
    files of the archive but the two reserved names, and the new
    descriptor. *)
Lemma replacement_result entries dir0 desc :
  delete "images.zip"
    (<["images.json" := desc]>
       (extract_images entries
          (clean_old (<["images.zip" := Archive (Some entries)]> dir0)))) =
  <["images.json" := desc]> (image_set (extract_images entries ∅)).
Proof.
  apply map_eq. intros k.
  destruct (decide (k = "images.zip")) as [->|Hz].
  - rewrite lookup_delete_eq, lookup_insert_ne by discriminate.
    rewrite image_set_lookup. now rewrite decide_False by (intros [_ H]; now apply H).
  - rewrite lookup_delete_ne by congruence.
    destruct (decide (k = "images.json")) as [->|Hj].
    + now rewrite !lookup_insert_eq.
    + rewrite !lookup_insert_ne by congruence.
      rewrite extract_images_lookup, image_set_lookup, clean_old_lookup.
      rewrite (decide_True (P := k <> "images.json" /\ k <> "images.zip")) by easy.
      rewrite (decide_False (P := k = "images.json" \/ k = "images.zip"))
        by (intros [|]; congruence).
      now destruct (extract_images entries ∅ !! k).
Qed.

Ltac run_sync :=
  cbv beta iota zeta delta
    [replace_images bind gets modify ret raise try_except suppress download_asset
     write_zip unzip_images unlink_zip iprint fault_at is_AtFetch is_AtZipWrite].

(** Up to the staleness test: the directory exists, the release was asked
    for, and the asset was found. *)
Lemma fetch_repo_images_run env repo w images_zip_url images_dir assets a :
  truthy (repo_images_zip_url repo) = Some images_zip_url ->
  truthy (repo_images_dir repo) = Some images_dir ->
  s_release env = Release assets ->
  images_asset assets = Some a ->
  let remote_id := get (a_id a) in
  let remote_size := get_or (JNum 0) (a_size a) in
  let w1 := send (ApiQuery images_zip_url) (set_idir images_dir id w) in
  fetch_repo_images env repo w =
  if up_to_date (local_meta (idir images_dir w)) remote_id remote_size
  then (Ok tt, w1)
  else try_except (replace_images env repo images_dir a remote_id remote_size)
         (fun e =>
            do _ <- iprint (ILogUpdateFailed (repo_name repo) e);
            suppress (unlink_zip images_dir)) w1.
Proof.
  intros Hu Hd Hr Ha remote_id remote_size w1.
  unfold fetch_repo_images. rewrite Hu, Hd.
  cbv beta iota zeta delta [bind gets modify ret]. rewrite Hr.
  cbv beta iota zeta delta [bind gets modify ret]. rewrite Ha.
  rewrite idir_set_idir. change (id (idir images_dir w)) with (idir images_dir w).
  now destruct (up_to_date _ _ _).
Qed.

(** The handler of the replacement: it prints the failure and removes the
    temporary archive if there is one. *)
Lemma sync_handler_run name e d w :
  let r := (do _ <- iprint (ILogUpdateFailed name e); suppress (unlink_zip d)) w in
  result_of r = Ok tt /\
  idir d (state_of r) = delete "images.zip" (idir d w) /\
  requests (state_of r) = requests w /\
  iout (state_of r) = iout w ++ [ILogUpdateFailed name e].
Proof.
  run_sync. change (idir d (IWorld (idirs w) (requests w) _)) with (idir d w).
  destruct (idir d w !! "images.zip") as [z|] eqn:Hz; cbn [fst snd result_of state_of].
  - rewrite idir_set_idir. auto.
  - change (idir d (IWorld (idirs w) (requests w) _)) with (idir d w).
    rewrite delete_id by exact Hz. auto.
Qed.

(** The replacement when every step succeeds. *)
Lemma replace_images_ok env repo d a rid rsz w url entries :
  a_browser_download_url a = Some url ->
  s_payload env = Some entries ->
  s_fault env = None ->
  let r := replace_images env repo d a rid rsz w in
  result_of r = Ok tt /\
  idir d (state_of r) =
    <["images.json" := Plain (IJson (Some rid) (Some rsz))]>
      (image_set (extract_images entries ∅)) /\
  requests (state_of r) = requests w ++ [AssetDownload url] /\
  iout (state_of r) = iout w ++ [ILogUpdated (repo_name repo)].
Proof.
  intros Hurl Hp Hf. run_sync. rewrite Hurl, Hf, Hp. run_sync.
  rewrite !idir_set_idir, clean_old_lookup, decide_True by now right.
  rewrite lookup_insert_eq. run_sync.
  rewrite !idir_set_idir. rewrite lookup_insert_ne by discriminate.
  rewrite extract_images_lookup, clean_old_lookup, decide_True by now right.
  rewrite lookup_insert_eq.
  destruct (extract_images entries ∅ !! "images.zip"); run_sync;
    unfold result_of, state_of; cbn [fst snd]; rewrite idir_iworld, !idir_set_idir;
    (split; [reflexivity|split; [apply replacement_result|split; reflexivity]]).
Qed.

Lemma after_failed_extract_lookup part dir0 k :
  after_failed_extract part dir0 !! k =
  if decide (k = "images.zip") then None
  else match extract_images part ∅ !! k with
       | Some v => Some v
       | None => if decide (k = "images.json") then dir0 !! k else None
       end.
Proof.
  unfold after_failed_extract.
  destruct (decide (k = "images.zip")) as [->|Hz]; [apply lookup_delete_eq|].
  rewrite lookup_delete_ne by congruence. rewrite extract_images_lookup.
  destruct (extract_images part ∅ !! k); [reflexivity|].
  rewrite map_lookup_filter.
  destruct (dir0 !! k) as [x|]; cbn; [|now destruct (decide _)].
  destruct (decide (k = "images.json")) as [H|H].
  - now rewrite option_guard_True.
  - now rewrite option_guard_False.
Qed.

(** What is left when the replacement fails after the old files were
    removed: the temporary archive is deleted by the handler. *)
Lemma failed_extract_result part payload dir0 :
  delete "images.zip"
    (extract_images part (clean_old (<["images.zip" := Archive payload]> dir0))) =
  after_failed_extract part dir0.
Proof.
  apply map_eq. intros k. rewrite after_failed_extract_lookup.
  destruct (decide (k = "images.zip")) as [->|Hz]; [apply lookup_delete_eq|].
  rewrite lookup_delete_ne by congruence.
  rewrite extract_images_lookup, clean_old_lookup.
  destruct (extract_images part ∅ !! k); [reflexivity|].
  destruct (decide (k = "images.json")) as [->|Hj].
  - rewrite decide_True by now left. now rewrite lookup_insert_ne.
  - now rewrite decide_False by (intros [|]; congruence).
Qed.



(** The replacement when the fetch fails: the exception leaves the [try]
    body with the directory as it was, but perhaps with a partial
    temporary archive. *)
Lemma replace_images_fetch_fails env repo d a rid rsz w e :
  (a_browser_download_url a = None /\ e = Exn "KeyError" "browser_download_url") \/
  (exists url, a_browser_download_url a = Some url /\
               (s_fault env = Some (AtFetch, e) \/ s_fault env = Some (AtZipWrite, e))) ->
  let r := replace_images env repo d a rid rsz w in
  result_of r = Raised e /\
  delete "images.zip" (idir d (state_of r)) = delete "images.zip" (idir d w) /\
  iout (state_of r) = iout w.
Proof.
  intros [[Hurl ->]|(url & Hurl & [Hf|Hf])]; run_sync; rewrite Hurl; try rewrite Hf;
    run_sync; unfold result_of, state_of; cbn [fst snd]; auto.
  rewrite idir_set_idir. split; [reflexivity|]. split; [|reflexivity].
  apply delete_insert_eq.
Qed.

(** The replacement when the extraction fails: the old files are already
    removed. *)
Lemma replace_images_extract_fails env repo d a rid rsz w url part e :
  a_browser_download_url a = Some url ->
  (s_payload env = None /\ part = [] /\ e = Exn "BadZipFile" "File is not a zip file" /\
   (s_fault env = None \/ exists k e', s_fault env = Some (AtExtract k, e'))) \/
  (exists entries k, s_payload env = Some entries /\
                     s_fault env = Some (AtExtract k, e) /\ part = take k entries) ->
  let r := replace_images env repo d a rid rsz w in
  result_of r = Raised e /\
  delete "images.zip" (idir d (state_of r)) = after_failed_extract part (idir d w) /\
  iout (state_of r) = iout w.
Proof.
  intros Hurl [(Hp & -> & -> & [Hf|(k & e' & Hf)])|(entries & k & Hp & Hf & ->)];
    run_sync; rewrite Hurl, Hf, Hp; run_sync;
    rewrite !idir_set_idir, clean_old_lookup, decide_True by (now right);
    rewrite lookup_insert_eq; run_sync;
    unfold result_of, state_of; cbn [fst snd]; rewrite ?idir_set_idir;
    (split; [reflexivity|split; [|reflexivity]]).
  - apply (failed_extract_result []).
  - apply (failed_extract_result []).
  - apply failed_extract_result.
Qed.
End ImageSync.

(** On the sample directory: an asset with the cached id and size changes
    nothing and downloads nothing; an asset with a new id replaces the
    images and rewrites the descriptor. *)
Example image_sync_sample :
  let url := "https://github.com/owner/repo/releases/download/latest/images.zip" in
  let same := fetch_repo_images
                {| s_release := Release [sample_asset 7];
                   s_payload := Some [("c.png", IBytes "new c")];
                   s_fault := None |} sample_repo sample_iworld in
  let newer := fetch_repo_images
                 {| s_release := Release [sample_asset 8];
                    s_payload := Some [("c.png", IBytes "new c")];
                    s_fault := None |} sample_repo sample_iworld in
  state_of same = IWorld {["/images/ports" := sample_images]} [ApiQuery url] [] /\
  idir "/images/ports" (state_of newer) =
    {["c.png" := Plain (IBytes "new c");
      "images.json" := Plain (IJson (Some (JNum 8)) (Some (JNum 1000)))]} /\
  requests (state_of newer) = [ApiQuery url; AssetDownload "https://example.org/images.zip"].
Proof. vm_compute. repeat split. Qed.






(** ** Download worker *)

(** The read loop returns the byte count; it adds chunk events of the
    download stage and touches nothing but the staged file. *)
Lemma stream_chunks_run zip_name title total chunks downloaded w :
  exists n st' evs,
    stream_chunks zip_name title total chunks downloaded w =
    (Ok n,
     World st' (ports_dir w) (windows_dir w) (ledger w) (ledger_tmp w) (ledger_seen w)
           (tree_writes w) (progress_q w ++ evs) (stdout w)) /\
    delete zip_name st' = delete zip_name (staging w) /\
    Forall (fun ev => ev_stage ev = StDownload /\ ev_message ev = MChunk title) evs.
Proof.
  revert downloaded w. induction chunks as [|data chunks IH]; intros downloaded w.
  - exists downloaded, (staging w), []. destruct w. cbn. rewrite app_nil_r. auto.
  - cbn [stream_chunks]. cbv beta iota zeta delta [bind modify put].
    match goal with |- context [stream_chunks _ _ _ _ ?d ?w1] =>
      destruct (IH d w1) as (n & st' & evs & Hrun & Hst & Hevs) end.
    rewrite Hrun. eexists n, st', (_ :: evs). cbn. split; [|split].
    + now rewrite <- app_assoc.
    + rewrite Hst. apply delete_insert_eq.
    + constructor; [now cbn|exact Hevs].
Qed.

(** The handler of [_download_port]: the failure event, the console line,
    and the staged file removed if there is one. *)
Lemma download_handler_run port e w :
  let zip_name := port_name port +:+ ".zip" in
  let msg := exn_type e +:+ ": " +:+ exn_msg e in
  (do _ <- _fail port msg; suppress (unlink_staged zip_name)) w =
  (Ok tt,
   World (delete zip_name (staging w)) (ports_dir w) (windows_dir w) (ledger w)
         (ledger_tmp w) (ledger_seen w) (tree_writes w)
         (progress_q w ++ [Event 0 1 (MFailed zip_name msg) StDownload])
         (stdout w ++ [LogError msg])).
Proof.
  intros zip_name msg.
  cbv beta iota zeta delta [bind _fail put print modify suppress try_except
                            unlink_staged gets ret raise].
  destruct w as [st pd wd lv tp seen tw q out]. cbn.
  destruct (st !! zip_name) eqn:Hz; cbn; [reflexivity|].
  now rewrite delete_id.
Qed.

(** A transfer that fails leaves the [try] body with its exception; at most
    the staged file and the chunk events were written. *)
Lemma download_body_fails env port kind w e :
  failure_of (ie_transfer env) = Some e ->
  let zip_name := port_name port +:+ ".zip" in
  exists st' evs,
    download_body env port kind w =
    (Raised e,
     World st' (ports_dir w) (windows_dir w) (ledger w) (ledger_tmp w) (ledger_seen w)
           (tree_writes w) (progress_q w ++ evs) (stdout w)) /\
    delete zip_name st' = delete zip_name (staging w) /\
    Forall (fun ev => ev_stage ev = StDownload /\ ev_message ev = MChunk (port_title port))
           evs.
Proof.
  intros Hf zip_name. unfold download_body. fold zip_name.
  destruct (ie_transfer env) as [e'|e'|total chunks [md5 zip|e']]; cbn in Hf;
    try discriminate; injection Hf as ->.
  - exists (staging w), []. destruct w. cbn. rewrite app_nil_r. auto.
  - exists (staging w), []. destruct w. cbn. rewrite app_nil_r. auto.
  - cbv beta iota zeta delta [bind modify raise].
    match goal with |- context [stream_chunks _ _ _ _ ?d ?w1] =>
      destruct (stream_chunks_run zip_name (port_title port) total chunks d w1)
        as (n & st' & evs & Hrun & Hst & Hevs) end.
    rewrite Hrun. exists st', evs. split; [reflexivity|]. split; [|exact Hevs].
    rewrite Hst. apply delete_insert_eq.
Qed.

(** C9.  When the streamed transfer of a request fails with an error [e],
    [_download_port] still returns normally: it has put a failure event of
    the download stage carrying the error (after the chunk events of the
    transfer), printed the error, and removed the staged file
    [{name}.zip], partial or not; the ledger is as it was.  The consumer
    loop then goes on with the rest of the queue. *)
Theorem download_failure_continues (env : nat -> item_env) (i : nat) (port : Port)
    (kind : string) (rest : list (option (Port * string))) (w : world) (e : exn) :
  failure_of (ie_transfer (env i)) = Some e ->
  let zip_name := port_name port +:+ ".zip" in
  let failure :=
    Event 0 1 (MFailed zip_name (exn_type e +:+ ": " +:+ exn_msg e)) StDownload in
  let d := _download_port (env i) port kind w in
  let w' := state_of d in
  result_of d = Ok tt /\
  (exists chunk_events,
     progress_q w' = progress_q w ++ chunk_events ++ [failure] /\
     Forall (fun ev => ev_stage ev = StDownload /\ ev_message ev = MChunk (port_title port))
            chunk_events) /\
  last (progress_q w') = Some failure /\
  stdout w' = stdout w ++ [LogError (exn_type e +:+ ": " +:+ exn_msg e)] /\
  staging w' = delete zip_name (staging w) /\
  staging w' !! zip_name = None /\
  ledger w' = ledger w /\
  run env i (Some (port, kind) :: rest) w =
    (do _ <- after_item (env i) rest; run env (S i) rest) w'.
Proof.
  intros Hf zip_name failure d w'.
  destruct (download_body_fails (env i) port kind w e Hf) as (st' & evs & Hb & Hst & Hevs).
  assert (Hd : d = (Ok tt,
                    World (delete zip_name (staging w)) (ports_dir w) (windows_dir w)
                          (ledger w) (ledger_tmp w) (ledger_seen w) (tree_writes w)
                          (progress_q w ++ evs ++ [failure])
                          (stdout w ++ [LogError (exn_type e +:+ ": " +:+ exn_msg e)]))).
  { subst d. unfold _download_port, try_except. rewrite Hb.
    rewrite download_handler_run.
    cbn [staging ports_dir windows_dir ledger ledger_tmp ledger_seen tree_writes
         progress_q stdout].
    unfold failure, zip_name. now rewrite Hst, <- app_assoc. }
  subst w'. rewrite Hd. cbn [result_of state_of fst snd staging progress_q stdout ledger].
  split; [reflexivity|]. split; [exists evs; auto|].
  split; [rewrite app_assoc; apply last_snoc|].
  split; [reflexivity|]. split; [reflexivity|]. split; [apply lookup_delete_eq|].
  split; [reflexivity|].
  cbn [run]. unfold bind at 1. fold d. now rewrite Hd.
Qed.

Lemma download_failure_continues_witness :
  failure_of (ie_transfer (sample_queue_env 0)) = Some (Exn "URLError" "connection reset") /\
  run sample_queue_env 0
      [Some (sample_port "alpha" "Alpha", "port"); Some (sample_port "game" "Game", "port")]
      empty_world =
  (do _ <- after_item (sample_queue_env 0) [Some (sample_port "game" "Game", "port")];
   run sample_queue_env 1 [Some (sample_port "game" "Game", "port")])
    (state_of (_download_port (sample_queue_env 0) (sample_port "alpha" "Alpha") "port"
                 empty_world)).
Proof.
  split; [reflexivity|].
  apply (download_failure_continues sample_queue_env 0 (sample_port "alpha" "Alpha") "port"
           [Some (sample_port "game" "Game", "port")] empty_world
           (Exn "URLError" "connection reset") eq_refl).
Defined.

(** On the sample queue the first transfer breaks and the second request is
    still downloaded and installed. *)
Example run_sample_queue :
  let r := run sample_queue_env 0
             [Some (sample_port "alpha" "Alpha", "port");
              Some (sample_port "game" "Game", "port")] empty_world in
  result_of r = Ok Waiting /\
  ev_message <$> progress_q (state_of r) =
    [MChunk "Alpha"; MFailed "alpha.zip" "URLError: connection reset";
     MChunk "Game"; MChunk "Game"; MDownloaded "Game";
     MInstallingPackages; MInstalling "game.zip"; MInstalled "game.zip";
     MInstallationComplete] /\
  staging (state_of r) = ∅.
Proof. vm_compute. repeat split. Qed.

(** ** The ledger over several updates, and its reader at startup *)

Section LedgerReader.
Implicit Types (data : manifest) (l : list entry) (m : gmap string (option string)).

Lemma updated_lookup_key data port kind :
  updated data port kind !! key_of kind =
  Some (filter (fun d => lower (get_name d) <> lower (port_name port))
               (get_list data (key_of kind)) ++ [asdict port]).
Proof.
  unfold updated, get_list.
  rewrite lookup_insert_ne by (apply not_eq_sym, key_other_key).
  now rewrite !lookup_insert_eq.
Qed.

Lemma updated_lookup_other data port kind :
  updated data port kind !! other_key_of kind = Some (get_list data (other_key_of kind)).
Proof.
  unfold updated. rewrite lookup_insert_eq. f_equal. unfold get_list.
  now rewrite !lookup_insert_ne by apply key_other_key.
Qed.

Lemma filter_same_lower (a b : string) l :
  lower a = lower b ->
  filter (fun d => lower (get_name d) <> lower a) l =
  filter (fun d => lower (get_name d) <> lower b) l.
Proof. intros H. apply list_filter_iff. intros d. now rewrite H. Qed.

Lemma filter_twice (P : entry -> Prop) `{!forall d, Decision (P d)} l :
  filter P (filter P l) = filter P l.
Proof.
  induction l as [|d l IH]; [reflexivity|].
  destruct (decide (P d)) as [Hd|Hd].
  - rewrite (filter_cons_True P d l) by exact Hd.
    rewrite filter_cons_True by exact Hd. now rewrite IH.
  - now rewrite (filter_cons_False P d l) by exact Hd.
Qed.


Lemma fill_md5s_app l1 l2 m :
  fill_md5s (l1 ++ l2) m =
  match fill_md5s l1 m with
  | Ok m1 => fill_md5s l2 m1
  | Raised e => Raised e
  end.
Proof.
  revert m. induction l1 as [|d l1 IH]; intros m; cbn; [reflexivity|].
  destruct (e_name d); [apply IH|reflexivity].
Qed.

(** Records with another name leave the cache entry of a name alone. *)
Lemma fill_md5s_other_names l m m' n :
  fill_md5s l m = Ok m' ->
  Forall (fun d => e_name d <> Some n) l ->
  m' !! n = m !! n.
Proof.
  revert m. induction l as [|d l IH]; intros m Hf Hn; cbn in Hf.
  - now injection Hf as <-.
  - apply Forall_cons in Hn as [Hd Hn].
    destruct (e_name d) as [n'|] eqn:Hn'; [|discriminate].
    rewrite (IH _ Hf Hn). apply lookup_insert_ne. congruence.
Qed.
End LedgerReader.

(** X1.  The newest write wins: recording a package and then one whose name
    differs at most in case, under the same kind, leaves the ledger document
    that recording the second alone leaves.  In particular recording the
    same package twice is recording it once. *)
Theorem updated_newest_wins (data : manifest) (p q : Port) (kind : string) :
  lower (port_name p) = lower (port_name q) ->
  updated (updated data p kind) q kind = updated data q kind.
Proof.
  intros Hpq. apply map_eq. intros k.
  destruct (decide (k = key_of kind)) as [->|Hk].
  - rewrite !updated_lookup_key. f_equal. f_equal.
    rewrite updated_key, filter_app.
    rewrite (filter_same_lower _ _ _ Hpq), filter_twice.
    rewrite filter_cons_False; [now rewrite filter_nil, app_nil_r|].
    intros H. apply H. cbn. exact Hpq.
  - destruct (decide (k = other_key_of kind)) as [->|Ho].
    + rewrite !updated_lookup_other. f_equal. apply updated_other_key.
    + now rewrite !updated_elsewhere.
Qed.

Lemma updated_newest_wins_witness :
  updated (updated (load_manifest (Some sample_ledger))
             (sample_port "SuperTux" "SuperTux") "port")
          (sample_port "supertux" "SuperTux 2") "port" =
  updated (load_manifest (Some sample_ledger)) (sample_port "supertux" "SuperTux 2") "port".
Proof. apply updated_newest_wins. reflexivity. Defined.

(** [_update_manifest] as a whole: it returns normally and touches nothing
    but the ledger, its temporary file and the console. *)
Lemma update_manifest_run env port kind w :
  exists obs,
    _update_manifest env port kind w =
    (Ok tt,
     World (staging w) (ports_dir w) (windows_dir w)
           (match w_fault env with
            | None => Some (Json (updated (load_manifest (ledger w)) port kind))
            | Some _ => ledger w
            end)
           None (ledger_seen w ++ obs) (tree_writes w) (progress_q w)
           (stdout w ++ match w_fault env with
                        | None => []
                        | Some (_, e) => [LogManifestFailed e]
                        end)).
Proof.
  rewrite update_manifest_unfold. destruct env as [[[s e]|] n]; cbn [w_fault].
  - destruct (write_and_replace_fails s e n
                (updated (load_manifest (ledger w)) port kind) w) as (tmp' & k & ->).
    match goal with |- context [bind ?m ?f ?w1] =>
      destruct (manifest_handler_removes_tmp e w1) as (k' & ->) end.
    cbn. exists (replicate k (ledger w) ++ replicate k' (ledger w)).
    now rewrite app_assoc.
  - rewrite write_and_replace_ok, (app_nil_r (stdout w)). eexists. reflexivity.
Qed.





(** The cache entry of a name comes from the last record with that name. *)
Lemma fill_md5s_snoc (l : list entry) (d : entry) (n : string)
    (m m' : gmap string (option string)) :
  fill_md5s (l ++ [d]) m = Ok m' -> e_name d = Some n -> m' !! n = Some (e_md5 d).
Proof.
  rewrite fill_md5s_app. destruct (fill_md5s l m) as [m1|e]; [|discriminate].
  cbn. intros H Hn. rewrite Hn in H. injection H as <-. apply lookup_insert_eq.
Qed.

(** X3.  A recorded download drives the update flag at the next start.  After
    [_update_manifest] has written the ledger, the cache built from it at
    import maps the package's name to the fingerprint just recorded
    (for a port, provided no bottle record carries exactly that name: the
    bottles are read after the ports and would overwrite it).  So a
    catalog entry of that name is flagged [update_available] exactly when
    both fingerprints are non-empty and differ. *)
Theorem recorded_md5_drives_update_flag (w : world) (port catalog : Port) (kind : string)
    (n : nat) (local_md5s : gmap string (option string)) :
  let w' := state_of (_update_manifest {| w_fault := None; w_spilled := n |} port kind w) in
  load_local_md5s (ledger w') = Ok local_md5s ->
  (kind = "port" ->
   Forall (fun d => e_name d <> Some (port_name port))
          (get_list (load_manifest (ledger w)) "bottles")) ->
  port_name catalog = port_name port ->
  local_md5s !! port_name port = Some (port_md5 port) /\
  update_available local_md5s catalog =
    str_truthy (port_md5 port) && str_truthy (port_md5 catalog)
    && bool_decide (port_md5 port <> port_md5 catalog).
Proof.
  intros w'. subst w'.
  destruct (update_manifest_run {| w_fault := None; w_spilled := n |} port kind w)
    as (obs & ->).
  cbn [state_of snd ledger w_fault]. intros Hload Hbottles Hname.
  set (data := load_manifest (ledger w)) in *.
  assert (Hm : local_md5s !! port_name port = Some (port_md5 port)).
  { cbn in Hload.
    pose proof (updated_key data port kind) as Hk.
    pose proof (updated_other_key data port kind) as Ho.
    unfold key_of, other_key_of in Hk, Ho.
    destruct (String.eqb kind "port") eqn:Hkind.
    - apply String.eqb_eq in Hkind. specialize (Hbottles Hkind).
      rewrite Hk, Ho, fill_md5s_app in Hload.
      destruct (fill_md5s _ ∅) as [m1|e] eqn:H1; [|discriminate].
      rewrite (fill_md5s_other_names _ _ _ _ Hload Hbottles).
      exact (fill_md5s_snoc _ _ _ _ _ H1 eq_refl).
    - rewrite Hk, Ho, app_assoc in Hload.
      exact (fill_md5s_snoc _ _ _ _ _ Hload eq_refl). }
  split; [exact Hm|].
  unfold update_available. rewrite Hname, Hm. reflexivity.
Qed.

Lemma recorded_md5_drives_update_flag_witness :
  let installed :=
    {| port_name := "supertux"; port_title := "SuperTux"; port_desc := "";
       port_download_url := ""; port_image_path := None; port_date_updated := None;
       port_size := Some 4096; port_md5 := Some "0cc175b9c0f1b6a831c399e269772661" |} in
  let catalog :=
    {| port_name := "supertux"; port_title := "SuperTux"; port_desc := "";
       port_download_url := ""; port_image_path := None; port_date_updated := None;
       port_size := Some 8192; port_md5 := Some "92eb5ffee6ae2fec3ad71c777531578f" |} in
  exists local_md5s,
    load_local_md5s (ledger (state_of (_update_manifest no_fault installed "port"
                                         ledger_world))) = Ok local_md5s /\
    local_md5s !! "supertux" = Some (Some "0cc175b9c0f1b6a831c399e269772661") /\
    update_available local_md5s catalog = true.
Proof.
  intros installed catalog.
  destruct (load_local_md5s _) as [local_md5s|e] eqn:Hload;
    [|vm_compute in Hload; discriminate Hload].
  exists local_md5s. split; [reflexivity|].
  destruct (recorded_md5_drives_update_flag ledger_world installed catalog "port" 0
              local_md5s Hload) as [Hm Hflag].
  - intros _. vm_compute. repeat constructor; discriminate.
  - reflexivity.
  - split; [exact Hm|]. rewrite Hflag. reflexivity.
Defined.

(** ** The download of one package *)

(** The read loop, exactly: the count it returns and the events it puts. *)
Lemma stream_chunks_exact zip_name title total chunks downloaded w :
  exists st',
    stream_chunks zip_name title total chunks downloaded w =
    (Ok (received downloaded chunks),
     World st' (ports_dir w) (windows_dir w) (ledger w) (ledger_tmp w) (ledger_seen w)
           (tree_writes w) (progress_q w ++ chunk_events title total chunks downloaded)
           (stdout w)) /\
    delete zip_name st' = delete zip_name (staging w).
Proof.
  revert downloaded w. induction chunks as [|data chunks IH]; intros downloaded w.
  - exists (staging w). destruct w. cbn. rewrite app_nil_r. auto.
  - cbn [stream_chunks]. cbv beta iota zeta delta [bind modify put].
    match goal with |- context [stream_chunks _ _ _ _ ?d ?w1] =>
      destruct (IH d w1) as (st' & Hrun & Hst) end.
    rewrite Hrun. exists st'. cbn. split.
    + now rewrite <- app_assoc.
    + rewrite Hst. apply delete_insert_eq.
Qed.





(** [_download_port] when the transfer reaches the end of the stream. *)
Lemma download_port_succeeds env port kind w total chunks md5_hash zip :
  ie_transfer env = Stream total chunks (Eof md5_hash zip) ->
  let zip_name := port_name port +:+ ".zip" in
  let n := received 0 chunks in
  exists obs,
    _download_port env port kind w =
    (Ok tt,
     World (<[zip_name := {| st_size := n; st_md5 := md5_hash; st_zip := zip |}]> (staging w))
           (ports_dir w) (windows_dir w)
           (match w_fault (ie_ledger env) with
            | None => Some (Json (updated (load_manifest (ledger w))
                                    (with_fingerprint port n md5_hash) kind))
            | Some _ => ledger w
            end)
           None (ledger_seen w ++ obs) (tree_writes w)
           (progress_q w ++ chunk_events (port_title port) total chunks 0
              ++ [Event n n (MDownloaded (port_title port)) StDownload])
           (stdout w ++ match w_fault (ie_ledger env) with
                        | None => []
                        | Some (_, e) => [LogManifestFailed e]
                        end)).
Proof.
  intros Ht zip_name n. unfold _download_port, try_except, download_body. rewrite Ht.
  fold zip_name. cbv beta iota zeta delta [bind modify put].
  match goal with |- context [stream_chunks _ _ _ _ ?d ?w1] =>
    destruct (stream_chunks_exact zip_name (port_title port) total chunks d w1)
      as (st' & Hrun & Hst) end.
  rewrite Hrun. fold n. fold (with_fingerprint port n md5_hash).
  match goal with |- context [_update_manifest ?e ?p ?k ?w2] =>
    destruct (update_manifest_run e p k w2) as (obs & ->) end.
  exists obs. cbn. f_equal. f_equal.
  - rewrite <- insert_delete_eq, Hst. cbn. now rewrite delete_insert_eq, insert_delete_eq.
  - now rewrite <- app_assoc.
Qed.

Lemma chunk_events_stage title total chunks downloaded :
  Forall (fun ev => ev_stage ev = StDownload /\ ev_message ev = MChunk title)
         (chunk_events title total chunks downloaded).
Proof.
  revert downloaded. induction chunks as [|data chunks IH]; intros downloaded;
    constructor; [now cbn|apply IH].
Qed.



(** Every call of [_download_port]: it returns, and what it can have
    touched. *)
Lemma download_port_run env port kind w :
  let zip_name := port_name port +:+ ".zip" in
  exists st' lv tmp seen evs out,
    _download_port env port kind w =
    (Ok tt,
     World st' (ports_dir w) (windows_dir w) lv tmp seen (tree_writes w)
           (progress_q w ++ evs) out) /\
    delete zip_name st' = delete zip_name (staging w) /\
    Forall (fun ev => ev_stage ev = StDownload) evs /\
    (is_Some (st' !! zip_name) <-> failure_of (ie_transfer env) = None) /\
    (failure_of (ie_transfer env) <> None -> lv = ledger w).
Proof.
  intros zip_name. subst zip_name.
  destruct (failure_of (ie_transfer env)) as [e|] eqn:Hf.
  - destruct (download_body_fails env port kind w e Hf) as (st' & evs & Hb & Hst & Hevs).
    unfold _download_port, try_except. rewrite Hb, download_handler_run.
    cbn [staging ports_dir windows_dir ledger ledger_tmp ledger_seen tree_writes
         progress_q stdout].
    rewrite <- app_assoc.
    eexists _, _, _, _, _, _. split; [reflexivity|].
    split; [now rewrite Hst, delete_delete_eq|].
    split.
    { apply Forall_app. split; [|repeat constructor].
      eapply Forall_impl; [exact Hevs|]. now intros ev [H _]. }
    split; [|reflexivity].
    rewrite lookup_delete_eq. split; [intros [x Hx]; discriminate|discriminate].
  - destruct (ie_transfer env) as [e|e|total chunks [md5_hash zip|e]] eqn:Ht;
      try discriminate.
    destruct (download_port_succeeds env port kind w total chunks md5_hash zip Ht)
      as (obs & ->).
    eexists _, _, _, _, _, _. split; [reflexivity|].
    split; [apply delete_insert_eq|].
    split.
    { apply Forall_app. split; [|repeat constructor].
      eapply Forall_impl; [apply chunk_events_stage|]. now intros ev [H _]. }
    split; [|congruence].
    rewrite lookup_insert_eq. split; [reflexivity|eauto].
Qed.






(** ** The consumer loop *)

Lemma after_item_more env (items : list (Port * string)) rest :
  after_item env ((Some <$> items) ++ None :: rest) = ret tt.
Proof. now destruct items. Qed.

(** The loop up to a sentinel: downloads only. *)
Lemma run_until_sentinel env (items : list (Port * string)) rest :
  forall i w,
  exists st' lv tmp seen evs out,
    run env i ((Some <$> items) ++ None :: rest) w =
    (Ok Stopped,
     World st' (ports_dir w) (windows_dir w) lv tmp seen (tree_writes w)
           (progress_q w ++ evs) out) /\
    Forall (fun ev => ev_stage ev = StDownload) evs /\
    (forall name,
       (forall item, item ∈ items -> port_name item.1 +:+ ".zip" <> name) ->
       st' !! name = staging w !! name).
Proof.
  induction items as [|[port kind] items IH]; intros i w.
  - exists (staging w), (ledger w), (ledger_tmp w), (ledger_seen w), [], (stdout w).
    destruct w. cbn. rewrite app_nil_r. auto.
  - cbn [fmap list_fmap app run]. unfold bind at 1.
    destruct (download_port_run (env i) port kind w)
      as (st1 & lv1 & tmp1 & seen1 & evs1 & out1 & -> & Hst1 & Hevs1 & _).
    change (list_fmap _ _ Some items) with (Some <$> items).
    unfold bind at 1. rewrite after_item_more. unfold ret.
    match goal with |- context [run env (S i) _ ?w1] =>
      destruct (IH (S i) w1) as (st' & lv & tmp & seen & evs & out & -> & Hevs & Hst) end.
    cbn [ports_dir windows_dir tree_writes progress_q staging] in *.
    exists st', lv, tmp, seen, (evs1 ++ evs), out.
    split; [now rewrite <- app_assoc|]. split; [now apply Forall_app|].
    intros name Hname. rewrite Hst.
    + rewrite <- (lookup_delete_ne st1 (port_name port +:+ ".zip") name).
      * rewrite Hst1. apply lookup_delete_ne. apply (Hname (port, kind)). now left.
      * apply (Hname (port, kind)). now left.
    + intros item Hin. apply Hname. now right.
Qed.

(** X7.  The sentinel stops the worker before the install phase.  On a
    queue whose requests are followed by the sentinel [None], [run]
    downloads each request and returns; it never starts the install
    phase, because the queue is not empty after the last download.  So
    no library root changes, every event belongs to the download stage,
    an archive staged earlier under a name no request uses is still
    staged, and whatever is queued behind the sentinel is never read. *)
Theorem run_stops_at_sentinel (env : nat -> item_env) (i : nat)
    (items : list (Port * string)) (rest : list (option (Port * string))) (w : world) :
  let r := run env i ((Some <$> items) ++ None :: rest) w in
  let w' := state_of r in
  result_of r = Ok Stopped /\
  ports_dir w' = ports_dir w /\ windows_dir w' = windows_dir w /\
  tree_writes w' = tree_writes w /\
  (exists evs, progress_q w' = progress_q w ++ evs /\
               Forall (fun ev => ev_stage ev = StDownload) evs) /\
  (forall name,
     (forall item, item ∈ items -> port_name item.1 +:+ ".zip" <> name) ->
     staging w' !! name = staging w !! name) /\
  r = run env i ((Some <$> items) ++ [None]) w.
Proof.
  intros r w'. subst w'.
  assert (Hsame : r = run env i ((Some <$> items) ++ [None]) w).
  { subst r. revert i w. induction items as [|[port kind] items IH]; intros i w;
      [reflexivity|].
    cbn [fmap list_fmap app run]. change (list_fmap _ _ Some items) with (Some <$> items).
    unfold bind at 1 3. destruct (_download_port (env i) port kind w) as [[[]|e] w1];
      [|reflexivity].
    unfold bind. rewrite !after_item_more. unfold ret. apply IH. }
  destruct (run_until_sentinel env items rest i w)
    as (st' & lv & tmp & seen & evs & out & Hr & Hevs & Hst).
  change (r = (Ok Stopped,
               World st' (ports_dir w) (windows_dir w) lv tmp seen (tree_writes w)
                     (progress_q w ++ evs) out)) in Hr.
  clearbody r. rewrite <- Hsame. rewrite Hr.
  cbn [result_of state_of fst snd ports_dir windows_dir tree_writes progress_q staging].
  split; [reflexivity|]. split; [reflexivity|]. split; [reflexivity|].
  split; [reflexivity|]. split; [eauto|]. split; [exact Hst|reflexivity].
Qed.

(** ** What an install leaves alone *)

Section InstallFrame.
Implicit Types (w : world) (base_dir : root_dir) (dir : gmap string fdata).

Lemma install_frame_refl base_dir w : install_frame base_dir w w.
Proof. unfold install_frame. auto 10. Qed.

Lemma install_frame_trans base_dir w1 w2 w3 :
  install_frame base_dir w1 w2 -> install_frame base_dir w2 w3 ->
  install_frame base_dir w1 w3.
Proof.
  intros (A1 & A2 & A3 & A4 & A5 & A6) (B1 & B2 & B3 & B4 & B5 & B6).
  unfold install_frame. repeat split; try congruence.
  - intros r Hr. rewrite B5, A5 by exact Hr. reflexivity.
  - intros p Hp Hs. auto.
Qed.

Lemma install_frame_logged base_dir ls w : install_frame base_dir w (logged ls w).
Proof. destruct base_dir; unfold install_frame; cbn; auto 10. Qed.

Lemma install_frame_set_staging base_dir f w : install_frame base_dir w (set_staging f w).
Proof. destruct base_dir; unfold install_frame; cbn; auto 10. Qed.

Lemma install_frame_log_tree_write base_dir p w :
  install_frame base_dir w (log_tree_write p w).
Proof. destruct base_dir; unfold install_frame; cbn; auto 10. Qed.

Lemma install_frame_set_dir base_dir f w :
  (forall dir p, is_junk p = false -> is_Some (dir !! p) -> is_Some (f dir !! p)) ->
  install_frame base_dir w (set_dir base_dir f w).
Proof.
  intros Hf. destruct base_dir; unfold install_frame; cbn;
    (split; [reflexivity|]); (split; [reflexivity|]); (split; [reflexivity|]);
    (split; [reflexivity|]);
    (split; [intros [] Hr; try congruence; reflexivity|apply Hf]).
Qed.

Lemma extract_entries_keeps entries dir p :
  is_Some (dir !! p) -> is_Some (extract_entries entries dir !! p).
Proof.
  unfold extract_entries. revert dir.
  induction entries as [|[n x] entries IH]; intros dir H; [exact H|].
  cbn. apply IH. destruct (endswith n "/"); [exact H|].
  rewrite lookup_insert_is_Some. destruct (decide (n = p)); auto.
Qed.

Lemma clean_junk_lookup dir p :
  clean_junk dir !! p = if is_junk p then None else dir !! p.
Proof.
  unfold clean_junk. rewrite map_lookup_filter.
  destruct (dir !! p) as [x|]; cbn; [|now destruct (is_junk p)].
  destruct (is_junk p) eqn:Hj.
  - now rewrite option_guard_False by (cbn; congruence).
  - now rewrite option_guard_True by (cbn; congruence).
Qed.

(** The merge writes the index of its root and nothing else. *)
Lemma gamelist_add_frame env base_dir file w :
  install_frame base_dir w
    (state_of (gamelist_add env (base_dir, file) (base_dir, "gamelist.xml") w)).
Proof.
  destruct (read_file (base_dir, file) w) as [[b|src]|] eqn:Hsrc.
  - rewrite (gamelist_add_unparsable _ _ _ _ _ Hsrc). apply install_frame_logged.
  - destruct (load_gamelist_run (base_dir, "gamelist.xml") w) as (root & ls & Hload & _).
    rewrite (gamelist_add_run env _ _ _ _ _ _ Hsrc Hload).
    assert (H1 : install_frame base_dir w (logged ls w)) by apply install_frame_logged.
    destruct (decide _).
    { eapply install_frame_trans; [exact H1|apply install_frame_logged]. }
    destruct (index_write_fault env); [exact H1|].
    cbn [state_of snd fst].
    eapply install_frame_trans; [exact H1|].
    eapply install_frame_trans; [|apply install_frame_logged].
    eapply install_frame_trans; [|apply install_frame_log_tree_write].
    apply install_frame_set_dir. intros dir p _ Hs.
    rewrite lookup_insert_is_Some. destruct (decide ("gamelist.xml" = p)); auto.
  - rewrite (gamelist_add_missing _ _ _ _ Hsrc). apply install_frame_refl.
Qed.

Lemma merge_gameinfo_frame env zip_name base_dir namelist w :
  install_frame base_dir w (state_of (merge_gameinfo env zip_name base_dir namelist w)).
Proof.
  destruct (find_gameinfo namelist (dir_of base_dir w)) as [file|] eqn:Hg.
  - rewrite (merge_gameinfo_run _ _ _ _ _ _ Hg).
    pose proof (gamelist_add_frame env base_dir file (logged [LogFoundGameinfo file] w))
      as H.
    unfold state_of in *.
    destruct (gamelist_add _ _ _ _) as [[v|e] w3]; cbn [snd] in *;
      (eapply install_frame_trans; [apply install_frame_logged|exact H]).
  - unfold merge_gameinfo, bind at 1, gets. rewrite Hg. apply install_frame_logged.
Qed.

Lemma extracted_frame zip_name base_dir entries w :
  install_frame base_dir w (extracted zip_name base_dir entries w).
Proof.
  unfold extracted.
  eapply install_frame_trans; [apply install_frame_logged|].
  eapply install_frame_trans; [apply install_frame_logged|].
  eapply install_frame_trans; apply install_frame_set_dir.
  - intros dir p _. apply extract_entries_keeps.
  - intros dir p Hj. now rewrite clean_junk_lookup, Hj.
Qed.

(** An install whose archive names a descriptor is framed by the root the
    descriptor selects. *)
Lemma install_zip_frame env zip_name w archive entries target_json :
  staging w !! zip_name = Some archive -> st_zip archive = Some entries ->
  find_descriptor entries.*1 = Some target_json ->
  install_frame (base_dir_of target_json) w (state_of (install_zip env zip_name w)).
Proof.
  intros H Hz Hd. destruct (extract_fault env) as [[k e]|] eqn:Hx.
  - rewrite (install_zip_extract_fails _ _ _ _ _ _ _ _ H Hz Hd Hx). cbn [state_of snd].
    eapply install_frame_trans; [|apply install_frame_logged].
    eapply install_frame_trans; [apply install_frame_logged|].
    eapply install_frame_trans; [apply install_frame_logged|].
    apply install_frame_set_dir. intros dir p _. apply extract_entries_keeps.
  - rewrite (install_zip_extracted _ _ _ _ _ _ H Hz Hd Hx).
    pose proof (merge_gameinfo_frame env zip_name (base_dir_of target_json) entries.*1
                  (extracted zip_name (base_dir_of target_json) entries w)) as Hm.
    pose proof (extracted_frame zip_name (base_dir_of target_json) entries w) as He.
    unfold state_of in *.
    destruct (merge_gameinfo _ _ _ _ _) as [[[]|e] w3]; cbn [snd] in *.
    + eapply install_frame_trans; [|apply install_frame_logged].
      eapply install_frame_trans; [|apply install_frame_set_staging].
      eapply install_frame_trans; eassumption.
    + eapply install_frame_trans; [|apply install_frame_logged].
      eapply install_frame_trans; eassumption.
Qed.

(** An install that finds no descriptor only prints. *)
Lemma install_zip_prints_only env zip_name w :
  (forall archive entries,
     staging w !! zip_name = Some archive -> st_zip archive = Some entries ->
     find_descriptor entries.*1 = None) ->
  exists ls, install_zip env zip_name w = (Ok 255, logged ls w).
Proof.
  intros Hnone. destruct (staging w !! zip_name) as [archive|] eqn:H.
  - destruct (st_zip archive) as [entries|] eqn:Hz.
    + rewrite (install_zip_no_descriptor _ _ _ _ _ H Hz (Hnone _ _ eq_refl Hz)).
      exists [LogInstall zip_name; LogNoDescriptor zip_name].
      destruct w. unfold logged. cbn. now rewrite <- app_assoc.
    + rewrite (install_zip_bad_zip _ _ _ _ H Hz).
      exists [LogInstall zip_name; LogBadZip zip_name].
      destruct w. unfold logged. cbn. now rewrite <- app_assoc.
  - rewrite (install_zip_missing _ _ _ H). eauto.
Qed.

(** Every install: the status, the staging directory, and the frame of
    some root. *)
Lemma install_zip_run env zip_name w :
  exists status base_dir,
    result_of (install_zip env zip_name w) = Ok status /\
    (status = 0 /\ is_Some (staging w !! zip_name) /\
     staging (state_of (install_zip env zip_name w)) = delete zip_name (staging w)
     \/ status = 255 /\ staging (state_of (install_zip env zip_name w)) = staging w) /\
    install_frame base_dir w (state_of (install_zip env zip_name w)).
Proof.
  destruct (staging w !! zip_name) as [archive|] eqn:H.
  - assert (Hf : exists base_dir,
               install_frame base_dir w (state_of (install_zip env zip_name w))).
    { destruct (st_zip archive) as [entries|] eqn:Hz.
      - destruct (find_descriptor entries.*1) as [target_json|] eqn:Hd.
        + eexists. exact (install_zip_frame env _ _ _ _ _ H Hz Hd).
        + rewrite (install_zip_no_descriptor _ _ _ _ _ H Hz Hd). exists PORTS_DIR.
          eapply install_frame_trans; apply install_frame_logged.
      - rewrite (install_zip_bad_zip _ _ _ _ H Hz). exists PORTS_DIR.
        eapply install_frame_trans; apply install_frame_logged. }
    destruct Hf as [base_dir Hf].
    destruct (install_zip_cases env zip_name w archive H) as
      [(Hr & Hs & _)|(Hr & Hs & _)].
    + exists 255, base_dir. auto.
    + exists 0, base_dir. split; [exact Hr|]. split; [|exact Hf]. left. eauto.
  - rewrite (install_zip_missing _ _ _ H). exists 255, PORTS_DIR.
    split; [reflexivity|]. split; [now right|apply install_frame_logged].
Qed.
End InstallFrame.

(** X8.  An install is confined to the library.  [install_zip] never
    touches the ledger, its temporary file or the progress queue, and no
    staged archive but its own.  The descriptor found selects one root:
    with a name ending in [port.json] nothing changes below
    [WINDOWS_DIR], otherwise nothing changes below [PORTS_DIR].  When the
    archive is not staged, is no zip file or names no descriptor, no
    library root changes and no index is written. *)
Theorem install_zip_confined (env : install_env) (zip_name : string) (w : world) :
  let w' := state_of (install_zip env zip_name w) in
  (ledger w' = ledger w /\ ledger_tmp w' = ledger_tmp w /\
   ledger_seen w' = ledger_seen w /\ progress_q w' = progress_q w) /\
  (forall other, other <> zip_name -> staging w' !! other = staging w !! other) /\
  (forall archive entries target_json,
     staging w !! zip_name = Some archive -> st_zip archive = Some entries ->
     find_descriptor entries.*1 = Some target_json ->
     if endswith target_json "port.json"
     then windows_dir w' = windows_dir w
     else ports_dir w' = ports_dir w) /\
  ((forall archive entries,
      staging w !! zip_name = Some archive -> st_zip archive = Some entries ->
      find_descriptor entries.*1 = None) ->
   ports_dir w' = ports_dir w /\ windows_dir w' = windows_dir w /\
   tree_writes w' = tree_writes w).
Proof.
  intros w'. subst w'.
  destruct (install_zip_run env zip_name w) as (status & base_dir & _ & Hst & Hf).
  split; [|split; [|split]].
  - destruct Hf as (A1 & A2 & A3 & A4 & _). auto.
  - intros other Hne. destruct Hst as [(_ & _ & ->)|(_ & ->)]; [|reflexivity].
    apply lookup_delete_ne. congruence.
  - intros archive entries target_json H Hz Hd.
    destruct (install_zip_frame env _ _ _ _ _ H Hz Hd) as (_ & _ & _ & _ & Hother & _).
    unfold base_dir_of in Hother. destruct (endswith target_json "port.json").
    + apply (Hother WINDOWS_DIR). discriminate.
    + apply (Hother PORTS_DIR). discriminate.
  - intros Hnone. destruct (install_zip_prints_only env zip_name w Hnone) as (ls & ->).
    now cbn.
Qed.

(** X9.  An install never removes a library file that is no macOS junk.
    Whatever the archive holds and wherever the install fails, a file that
    was below a library root before the call, and is neither below a
    [__MACOSX] directory nor named [*.DS_Store], is still there
    afterwards (perhaps overwritten by the archive or, for the index, by
    the merge). *)
Theorem install_zip_keeps_library_files (env : install_env) (zip_name : string) (w : world)
    (r : root_dir) (p : string) :
  is_junk p = false ->
  is_Some (dir_of r w !! p) ->
  is_Some (dir_of r (state_of (install_zip env zip_name w)) !! p).
Proof.
  intros Hj Hs.
  destruct (install_zip_run env zip_name w)
    as (status & base_dir & _ & _ & (_ & _ & _ & _ & Hother & Hkeep)).
  assert (Hr : r = base_dir \/ r <> base_dir)
    by (destruct r, base_dir; (now left) || (right; discriminate)).
  destruct Hr as [->|Hne].
  - now apply Hkeep.
  - now rewrite Hother.
Qed.

Lemma install_zip_keeps_library_files_witness :
  is_Some (dir_of PORTS_DIR (state_of (install_zip no_install_fault "game.zip" sample_world))
             !! "gamelist.xml").
Proof.
  apply (install_zip_keeps_library_files no_install_fault "game.zip" sample_world
           PORTS_DIR "gamelist.xml").
  - reflexivity.
  - vm_compute. eauto.
Defined.

(** ** The install phase *)

#[local] Instance string_le_total : Total string_le.
Proof. intros a b. apply String.leb_total. Qed.

Lemma elem_of_zip_files w n :
  n ∈ zip_files w <-> is_Some (staging w !! n) /\ endswith n ".zip" = true.
Proof.
  unfold zip_files. rewrite merge_sort_Permutation, list_elem_of_filter.
  rewrite elem_of_elements, elem_of_dom. tauto.
Qed.

Lemma NoDup_zip_files w : NoDup (zip_files w).
Proof.
  unfold zip_files. rewrite merge_sort_Permutation.
  apply NoDup_filter, NoDup_elements.
Qed.

(** The loop over the archives: each gets its two events, and each that
    installs with status 0 is gone from the staging directory while the
    others stay. *)
Lemma install_each_run env names :
  NoDup names -> forall w,
  exists (outcomes : list (string * Z)) w',
    install_each env names w = (Ok tt, w') /\
    outcomes.*1 = names /\
    progress_q w' = progress_q w ++ (outcomes ≫= fun o => install_events o.1 o.2) /\
    ledger w' = ledger w /\
    Forall (fun o => (o.2 = 0 /\ staging w' !! o.1 = None) \/
                     (o.2 = 255 /\ staging w' !! o.1 = staging w !! o.1)) outcomes /\
    (forall n, n ∉ names -> staging w' !! n = staging w !! n) /\
    Forall (fun o => exists wn, staging wn !! o.1 = staging w !! o.1 /\
                                result_of (install_zip (env o.1) o.1 wn) = Ok o.2)
           outcomes.
Proof.
  induction names as [|name names IH]; intros Hnd w.
  - exists [], w. cbn. rewrite app_nil_r. auto 10.
  - apply NoDup_cons in Hnd as [Hname Hnd].
    cbn [install_each]. cbv beta iota zeta delta [bind put modify].
    set (w0 := put_event (Event 0 1 (MInstalling name) StInstall) w).
    destruct (install_zip_run (env name) name w0)
      as (status & base_dir & Hr & Hst & (_ & _ & _ & Hq & _)).
    assert (Hl : ledger (state_of (install_zip (env name) name w0)) = ledger w).
    { destruct (install_zip_run (env name) name w0)
        as (_ & _ & _ & _ & (Hl & _)). exact Hl. }
    pose proof Hr as Hr0.
    unfold result_of, state_of in Hr, Hst, Hq, Hl.
    destruct (install_zip (env name) name w0) as [[s|e] w1] eqn:Hi; cbn [fst snd] in *;
      [|discriminate]. injection Hr as ->.
    set (w2 := put_event _ w1).
    destruct (IH Hnd w2)
      as (outcomes & w' & Hrun & Hnames & Hevs & Hled & Hout & Hrest & Hwhen).
    exists ((name, status) :: outcomes), w'. split; [exact Hrun|].
    split; [cbn; now rewrite Hnames|].
    split.
    { rewrite Hevs. unfold w2. cbn. rewrite Hq. unfold w0. cbn.
      now rewrite <- !app_assoc. }
    split; [rewrite Hled; exact Hl|].
    assert (Hw2 : staging w2 = staging w1) by reflexivity.
    assert (Hw0 : staging w0 = staging w) by reflexivity.
    assert (Hother : forall n, n <> name -> staging w2 !! n = staging w !! n).
    { intros n Hn. rewrite Hw2.
      destruct Hst as [(_ & _ & ->)|(_ & ->)]; [|now rewrite Hw0].
      rewrite lookup_delete_ne by congruence. now rewrite Hw0. }
    assert (Hin : forall o, o ∈ outcomes -> o.1 <> name).
    { intros o Ho Heq. apply Hname. rewrite <- Hnames, <- Heq.
      exact (list_elem_of_fmap_2 fst _ _ Ho). }
    split; [|split].
    + constructor.
      * cbn [fst snd]. rewrite (Hrest name Hname), Hw2.
        destruct Hst as [(-> & _ & ->)|(-> & ->)].
        -- left. split; [reflexivity|apply lookup_delete_eq].
        -- right. now rewrite Hw0.
      * apply Forall_forall. intros o Ho.
        rewrite Forall_forall in Hout. pose proof (Hout _ Ho) as Hs.
        rewrite (Hother _ (Hin _ Ho)) in Hs. exact Hs.
    + intros n Hn. apply not_elem_of_cons in Hn as [Hne Hn].
      rewrite (Hrest n Hn). now apply Hother.
    + constructor.
      * exists w0. split; [now rewrite Hw0|]. cbn [fst snd]. rewrite Hi. reflexivity.
      * apply Forall_forall. intros o Ho.
        rewrite Forall_forall in Hwhen. destruct (Hwhen _ Ho) as (wn & Hwn & Hres).
        exists wn. split; [|exact Hres]. rewrite Hwn. now apply Hother, Hin.
Qed.

(** X10.  The install phase and its events.  [_run_autoinstall] takes the
    staged files named [*.zip], in the order of their names.  With none
    it does nothing at all: no event is put.  Otherwise it puts the
    phase event, then for each archive in order the announcement and the
    outcome, then the closing event; the outcome is [Installed] exactly
    when [install_zip] returned 0, and then the archive is gone from the
    staging directory, while an archive whose outcome is [Install
    failed] is still staged as it was.  The ledger is never touched. *)
Theorem autoinstall_protocol (env : string -> install_env) (w : world) :
  let names := zip_files w in
  let r := _run_autoinstall env w in
  let w' := state_of r in
  result_of r = Ok tt /\
  Sorted string_le names /\ NoDup names /\
  (forall n, n ∈ names <-> is_Some (staging w !! n) /\ endswith n ".zip" = true) /\
  (names = [] -> w' = w) /\
  (names <> [] ->
   exists outcomes : list (string * Z),
     outcomes.*1 = names /\
     progress_q w' =
       progress_q w ++ [Event 0 1 MInstallingPackages StPhase]
         ++ (outcomes ≫= fun o => install_events o.1 o.2)
         ++ [Event 0 1 MInstallationComplete StInstall] /\
     Forall (fun o => (o.2 = 0 /\ staging w' !! o.1 = None) \/
                      (o.2 = 255 /\ staging w' !! o.1 = staging w !! o.1)) outcomes) /\
  ledger w' = ledger w.
Proof.
  intros names r w'. subst w' r.
  pose proof (NoDup_zip_files w) as Hnd.
  pose proof (Sorted_merge_sort string_le
                (filter (fun name => endswith name ".zip" = true)
                        (elements (dom (staging w))))) as Hsorted.
  pose proof (elem_of_zip_files w) as Hmem.
  assert (Hrun : _run_autoinstall env w =
                 match names with
                 | [] => (Ok tt, w)
                 | _ =>
                     (do _ <- put (Event 0 1 MInstallingPackages StPhase);
                      do _ <- install_each env names;
                      put (Event 0 1 MInstallationComplete StInstall)) w
                 end).
  { unfold _run_autoinstall, bind at 1, gets. fold names. now destruct names. }
  rewrite Hrun. clear Hrun.
  change (merge_sort string_le _) with names in Hsorted.
  fold names in Hnd, Hmem. clearbody names.
  split; [|split; [exact Hsorted|split; [exact Hnd|split; [exact Hmem|]]]];
    destruct names as [|name names'].
  - reflexivity.
  - cbv beta iota zeta delta [bind put modify].
    match goal with |- context [install_each env ?l ?w0] =>
      destruct (install_each_run env l Hnd w0) as (outcomes & w1 & -> & _) end.
    reflexivity.
  - cbn. split; [reflexivity|]. split; [congruence|reflexivity].
  - cbv beta iota zeta delta [bind put modify].
    set (w0 := put_event (Event 0 1 MInstallingPackages StPhase) w).
    destruct (install_each_run env (name :: names') Hnd w0)
      as (outcomes & w1 & -> & Hnames & Hevs & Hled & Hout & _).
    cbn [result_of state_of fst snd].
    split; [discriminate|]. split; [|exact Hled].
    intros _. exists outcomes. split; [exact Hnames|]. split.
    + cbn. rewrite Hevs. unfold w0. cbn. now rewrite <- !app_assoc.
    + exact Hout.
Qed.

(** ** The merge, run again *)

Section MergeAgain.
Implicit Types (E : gset (option string)) (games : list elem) (root src : elem).









End MergeAgain.









(** ** Image sync: what a call touches and sends *)

Ltac step_sync :=
  cbv beta iota zeta delta
    [replace_images bind gets modify ret raise try_except suppress download_asset
     write_zip unzip_images unlink_zip iprint fault_at is_AtFetch is_AtZipWrite].

Section SyncFrame.
Implicit Types (w : iworld) (d : string).

Lemma idirs_set_idir_ne d d' f w : d' <> d -> idirs (set_idir d f w) !! d' = idirs w !! d'.
Proof. intros H. unfold set_idir. cbn. now rewrite lookup_insert_ne. Qed.

Lemma idirs_send r w : idirs (send r w) = idirs w.
Proof. reflexivity. Qed.

Ltac frame_done :=
  unfold state_of; cbn [fst snd idirs requests iout send];
  split;
  [intros d' Hd'; cbn [idirs]; rewrite ?idirs_set_idir_ne by exact Hd'; reflexivity
  |cbn [requests set_idir]; rewrite ?app_nil_r; reflexivity].

(** The replacement touches one directory and sends one download. *)
Lemma replace_images_frame env repo d a rid rsz w :
  let r := replace_images env repo d a rid rsz w in
  (forall d', d' <> d -> idirs (state_of r) !! d' = idirs w !! d') /\
  requests (state_of r) =
    requests w ++ match a_browser_download_url a with
                  | Some u => [AssetDownload u]
                  | None => []
                  end.
Proof.
  destruct (a_browser_download_url a) as [u|] eqn:Hurl.
  - destruct env as [rel payload fault].
    destruct fault as [[[| |k] e]|]; step_sync; rewrite Hurl; cbn [s_fault s_payload];
      step_sync; try frame_done.
    + rewrite !idir_set_idir, clean_old_lookup, decide_True by (now right).
      rewrite lookup_insert_eq. destruct payload as [entries|]; step_sync; frame_done.
    + rewrite !idir_set_idir, clean_old_lookup, decide_True by (now right).
      rewrite lookup_insert_eq. destruct payload as [entries|]; step_sync;
        [|frame_done].
      match goal with |- context [match ?x with Some _ => _ | None => _ end] =>
        destruct x end; frame_done.
  - step_sync. rewrite Hurl. step_sync. frame_done.
Qed.

(** The handler touches the same directory and sends nothing. *)
Lemma sync_handler_frame name e d w :
  let r := (do _ <- iprint (ILogUpdateFailed name e); suppress (unlink_zip d)) w in
  forall d', d' <> d -> idirs (state_of r) !! d' = idirs w !! d'.
Proof.
  step_sync.
  match goal with |- context [match ?x with Some _ => _ | None => _ end] =>
    destruct x end;
    unfold state_of; cbn [fst snd]; intros d' Hd';
    rewrite ?idirs_set_idir_ne by exact Hd'; reflexivity.
Qed.

(** The guarded replacement as a whole. *)
Lemma guarded_replacement env repo d a rid rsz w :
  let r := try_except (replace_images env repo d a rid rsz)
             (fun e => do _ <- iprint (ILogUpdateFailed (repo_name repo) e);
                       suppress (unlink_zip d)) w in
  result_of r = Ok tt /\
  (forall d', d' <> d -> idirs (state_of r) !! d' = idirs w !! d') /\
  requests (state_of r) =
    requests w ++ match a_browser_download_url a with
                  | Some u => [AssetDownload u]
                  | None => []
                  end.
Proof.
  intros r. subst r. unfold try_except.
  destruct (replace_images_frame env repo d a rid rsz w) as [Hd Hr].
  unfold state_of in *.
  destruct (replace_images env repo d a rid rsz w) as [[[]|e] w2]; cbn [fst snd] in *.
  - auto.
  - destruct (sync_handler_run (repo_name repo) e d w2) as (H1 & _ & H3 & _).
    pose proof (sync_handler_frame (repo_name repo) e d w2) as H2.
    unfold result_of, state_of in *. cbn zeta in H2.
    split; [exact H1|]. split; [|now rewrite H3].
    intros d' Hd'. now rewrite H2, Hd.
Qed.
End SyncFrame.

(** X14.  What an image sync touches and sends.  A source without an
    archive URL or without an image directory makes the call return at
    once, with nothing changed.  Otherwise the call changes no image
    directory but the source's own, and it sends at most the release
    query followed by one download of the archive; the download is sent
    only when the release lists [images.zip] with a download URL and the
    cached descriptor differs from the remote id or size. *)
Theorem image_sync_traffic (env : sync_env) (repo : Repository) (w : iworld) :
  let r := fetch_repo_images env repo w in
  let w' := state_of r in
  (truthy (repo_images_zip_url repo) = None \/ truthy (repo_images_dir repo) = None ->
   r = (Ok tt, w)) /\
  (forall d, truthy (repo_images_dir repo) <> Some d -> idirs w' !! d = idirs w !! d) /\
  (exists rq,
     requests w' = requests w ++ rq /\
     (rq = [] \/ (exists url, rq = [ApiQuery url]) \/
      (exists url d assets a u,
         rq = [ApiQuery url; AssetDownload u] /\
         truthy (repo_images_dir repo) = Some d /\
         s_release env = Release assets /\ images_asset assets = Some a /\
         a_browser_download_url a = Some u /\
         up_to_date (local_meta (idir d w)) (get (a_id a)) (get_or (JNum 0) (a_size a))
           = false))).
Proof.
  intros r w'. subst w' r.
  destruct (truthy (repo_images_zip_url repo)) as [url|] eqn:Hu;
    [destruct (truthy (repo_images_dir repo)) as [d|] eqn:Hd|].
  - split; [intros [|]; discriminate|].
    assert (Hne : forall d0, Some d <> Some d0 -> d0 <> d) by (intros d0 H ->; now apply H).
    destruct (s_release env) as [|e|assets] eqn:Hr.
    + unfold fetch_repo_images. rewrite Hu, Hd.
      cbv beta iota zeta delta [bind gets modify ret iprint]. rewrite Hr.
      unfold state_of. cbn [fst snd idirs requests]. split.
      * intros d0 H0. apply idirs_set_idir_ne. auto.
      * exists []. split; [now rewrite app_nil_r|now left].
    + unfold fetch_repo_images. rewrite Hu, Hd.
      cbv beta iota zeta delta [bind gets modify ret iprint]. rewrite Hr.
      cbv beta iota zeta delta [bind gets modify ret iprint].
      unfold state_of. cbn [fst snd idirs requests send]. split.
      * intros d0 H0. apply idirs_set_idir_ne. auto.
      * exists [ApiQuery url]. split; [reflexivity|]. right. left. eauto.
    + destruct (images_asset assets) as [a|] eqn:Ha.
      * rewrite (fetch_repo_images_run _ _ _ _ _ _ _ Hu Hd Hr Ha).
        destruct (up_to_date _ _ _) eqn:Hup.
        -- unfold state_of. cbn [fst snd idirs requests send]. split.
           ++ intros d0 H0. apply idirs_set_idir_ne. auto.
           ++ exists [ApiQuery url]. split; [reflexivity|]. right. left. eauto.
        -- match goal with |- context [try_except ?b ?h ?w1] =>
             destruct (guarded_replacement env repo d a (get (a_id a))
                         (get_or (JNum 0) (a_size a)) w1) as (_ & Hdirs & Hreq) end.
           cbn zeta in Hdirs, Hreq. split.
           ++ intros d0 H0. rewrite Hdirs by auto. cbn [idirs send].
              apply idirs_set_idir_ne. auto.
           ++ rewrite Hreq. cbn [requests send set_idir]. rewrite <- app_assoc.
              eexists. split; [reflexivity|].
              destruct (a_browser_download_url a) as [u|] eqn:Hurl.
              ** right. right. exists url, d, assets, a, u. auto 10.
              ** right. left. eauto.
      * unfold fetch_repo_images. rewrite Hu, Hd.
        cbv beta iota zeta delta [bind gets modify ret iprint]. rewrite Hr.
        cbv beta iota zeta delta [bind gets modify ret iprint]. rewrite Ha.
        unfold state_of. cbn [fst snd idirs requests send]. split.
        -- intros d0 H0. apply idirs_set_idir_ne. auto.
        -- exists [ApiQuery url]. split; [reflexivity|]. right. left. eauto.
  - unfold fetch_repo_images. rewrite Hu, Hd. cbn.
    split; [reflexivity|]. split; [reflexivity|].
    exists []. split; [now rewrite app_nil_r|now left].
  - unfold fetch_repo_images. rewrite Hu. cbn.
    split; [reflexivity|]. split; [reflexivity|].
    exists []. split; [now rewrite app_nil_r|now left].
Qed.

Lemma idir_is_dir d w k x : idir d w !! k = Some x -> exists dir, idirs w !! d = Some dir.
Proof. unfold idir. destruct (idirs w !! d); [eauto|discriminate]. Qed.

(** X15.  A sync that went through settles the cache.  After a call in
    which the release lists the archive and every step of a needed
    replacement succeeds, a second call that meets the same release
    (whatever else its environment does) sends the release query and
    nothing more: no download, no change to any directory, nothing
    printed. *)
Theorem image_sync_settles (env env2 : sync_env) (repo : Repository) (w : iworld)
    (images_zip_url images_dir : string) (assets : list asset) (a : asset)
    (url : string) (entries : list (string * idata)) :
  truthy (repo_images_zip_url repo) = Some images_zip_url ->
  truthy (repo_images_dir repo) = Some images_dir ->
  s_release env = Release assets ->
  images_asset assets = Some a ->
  a_browser_download_url a = Some url ->
  s_payload env = Some entries ->
  s_fault env = None ->
  s_release env2 = Release assets ->
  let w1 := state_of (fetch_repo_images env repo w) in
  let again := fetch_repo_images env2 repo w1 in
  result_of again = Ok tt /\
  idirs (state_of again) = idirs w1 /\
  requests (state_of again) = requests w1 ++ [ApiQuery images_zip_url] /\
  iout (state_of again) = iout w1.
Proof.
  intros Hu Hd Hr Ha Hurl Hp Hf Hr2 w1 again.
  set (rid := get (a_id a)). set (rsz := get_or (JNum 0) (a_size a)).
  assert (H1 : up_to_date (local_meta (idir images_dir w1)) rid rsz = true /\
               exists dir, idirs w1 !! images_dir = Some dir).
  { subst w1. rewrite (fetch_repo_images_run _ _ _ _ _ _ _ Hu Hd Hr Ha).
    fold rid rsz.
    destruct (up_to_date (local_meta (idir images_dir w)) rid rsz) eqn:Hup.
    - unfold state_of. cbn [snd]. split.
      + change (idir images_dir (send _ ?x)) with (idir images_dir x).
        now rewrite idir_set_idir.
      + eexists. cbn. apply lookup_insert_eq.
    - unfold try_except.
      match goal with |- context [replace_images _ _ _ _ _ _ ?w0] =>
        destruct (replace_images_ok env repo images_dir a rid rsz w0 url entries
                    Hurl Hp Hf) as (Hres & Hdir & _) end.
      unfold result_of, state_of in *.
      destruct (replace_images _ _ _ _ _ _ _) as [[[]|e] w2]; cbn [fst snd] in *;
        [|discriminate].
      assert (Hj : idir images_dir w2 !! "images.json"
                   = Some (Plain (IJson (Some rid) (Some rsz))))
        by (rewrite Hdir; apply lookup_insert_eq).
      split; [|exact (idir_is_dir _ _ _ _ Hj)].
      unfold up_to_date, local_meta. rewrite Hj. cbn.
      now rewrite !bool_decide_eq_true_2. }
  destruct H1 as [Hup (dir & Hdir)].
  subst again. rewrite (fetch_repo_images_run _ _ _ _ _ _ _ Hu Hd Hr2 Ha).
  fold rid rsz. rewrite Hup, (mkdir_existing _ _ _ Hdir). now cbn.
Qed.

Lemma image_sync_settles_witness :
  let env := {| s_release := Release [sample_asset 8];
                s_payload := Some [("c.png", IBytes "new c")];
                s_fault := None |} in
  let w1 := state_of (fetch_repo_images env sample_repo sample_iworld) in
  idirs (state_of (fetch_repo_images serves_no_zip sample_repo w1)) = idirs w1.
Proof.
  intros env w1.
  destruct (image_sync_settles env serves_no_zip sample_repo sample_iworld
              "https://github.com/owner/repo/releases/download/latest/images.zip"
              "/images/ports" [sample_asset 8] (sample_asset 8)
              "https://example.org/images.zip" [("c.png", IBytes "new c")]
              eq_refl eq_refl eq_refl eq_refl eq_refl eq_refl eq_refl eq_refl)
    as (_ & Hdirs & _).
  exact Hdirs.
Defined.

(** X16.  A failed replacement is tried again.  When the cache is stale
    and the replacement fails (the download or the write of the
    temporary archive raises, the bytes are no zip archive, or the
    extraction raises before it has written an [images.json]), the cached
    descriptor is what it was, so the cache is still stale: the next
    call that meets the same release sends the release query and
    downloads the archive again. *)
Theorem image_sync_retries_after_failure (env env2 : sync_env) (repo : Repository)
    (w : iworld) (images_zip_url images_dir : string) (assets : list asset) (a : asset)
    (url : string) :
  truthy (repo_images_zip_url repo) = Some images_zip_url ->
  truthy (repo_images_dir repo) = Some images_dir ->
  s_release env = Release assets ->
  images_asset assets = Some a ->
  a_browser_download_url a = Some url ->
  up_to_date (local_meta (idir images_dir w)) (get (a_id a)) (get_or (JNum 0) (a_size a))
    = false ->
  (exists e, s_fault env = Some (AtFetch, e) \/ s_fault env = Some (AtZipWrite, e)) \/
  (s_payload env = None /\
   (s_fault env = None \/ exists k e, s_fault env = Some (AtExtract k, e))) \/
  (exists entries k e,
     s_payload env = Some entries /\ s_fault env = Some (AtExtract k, e) /\
     extract_images (take k entries) ∅ !! "images.json" = None) ->
  s_release env2 = Release assets ->
  let w1 := state_of (fetch_repo_images env repo w) in
  let again := fetch_repo_images env2 repo w1 in
  idir images_dir w1 !! "images.json" = idir images_dir w !! "images.json" /\
  idir images_dir w1 !! "images.zip" = None /\
  requests (state_of again) =
    requests w1 ++ [ApiQuery images_zip_url; AssetDownload url].
Proof.
  intros Hu Hd Hr Ha Hurl Hup Hfail Hr2 w1 again.
  set (rid := get (a_id a)) in *. set (rsz := get_or (JNum 0) (a_size a)) in *.
  assert (H1 : idir images_dir w1 !! "images.json" = idir images_dir w !! "images.json" /\
               idir images_dir w1 !! "images.zip" = None).
  { subst w1. rewrite (fetch_repo_images_run _ _ _ _ _ _ _ Hu Hd Hr Ha).
    fold rid rsz. rewrite Hup. unfold try_except.
    set (w0 := send (ApiQuery images_zip_url) (set_idir images_dir id w)).
    assert (Hw0 : idir images_dir w0 = idir images_dir w).
    { unfold w0. change (idir images_dir (send _ ?x)) with (idir images_dir x).
      now rewrite idir_set_idir. }
    assert (Hbody : exists e part,
               result_of (replace_images env repo images_dir a rid rsz w0) = Raised e /\
               extract_images part ∅ !! "images.json" = None /\
               (delete "images.zip"
                  (idir images_dir (state_of (replace_images env repo images_dir a rid rsz w0)))
                = delete "images.zip" (idir images_dir w0) \/
                delete "images.zip"
                  (idir images_dir (state_of (replace_images env repo images_dir a rid rsz w0)))
                = after_failed_extract part (idir images_dir w0))).
    { destruct Hfail as [(e & Hf)|[(Hp & Hf)|(entries & k & e & Hp & Hf & Hj)]].
      - destruct (replace_images_fetch_fails env repo images_dir a rid rsz w0 e)
          as (Hres & Hdir & _); [right; eauto|].
        exists e, []. auto.
      - destruct (replace_images_extract_fails env repo images_dir a rid rsz w0 url []
                    (Exn "BadZipFile" "File is not a zip file") Hurl)
          as (Hres & Hdir & _); [left; auto|].
        eexists _, []. eauto.
      - destruct (replace_images_extract_fails env repo images_dir a rid rsz w0 url
                    (take k entries) e Hurl)
          as (Hres & Hdir & _); [right; eauto|].
        exists e, (take k entries). auto. }
    destruct Hbody as (e & part & Hres & Hj & Hdir).
    unfold result_of, state_of in *.
    destruct (replace_images _ _ _ _ _ _ _) as [[[]|e'] w2]; cbn [fst snd] in *;
      [discriminate|].
    destruct (sync_handler_run (repo_name repo) e' images_dir w2) as (_ & H2 & _).
    unfold state_of in H2. rewrite H2.
    destruct Hdir as [-> | ->]; rewrite Hw0.
    - split; [now rewrite lookup_delete_ne|apply lookup_delete_eq].
    - rewrite !after_failed_extract_lookup, Hj.
      rewrite (decide_False (P := "images.json" = "images.zip")) by discriminate.
      rewrite (decide_True (P := "images.json" = "images.json")) by reflexivity.
      rewrite (decide_True (P := "images.zip" = "images.zip")) by reflexivity.
      auto. }
  destruct H1 as [Hjson Hzip]. split; [exact Hjson|]. split; [exact Hzip|].
  assert (Hup1 : up_to_date (local_meta (idir images_dir w1)) rid rsz = false).
  { unfold up_to_date, local_meta in *. now rewrite Hjson. }
  subst again. rewrite (fetch_repo_images_run _ _ _ _ _ _ _ Hu Hd Hr2 Ha).
  fold rid rsz. rewrite Hup1.
  match goal with |- context [try_except ?b ?h ?w0] =>
    destruct (guarded_replacement env2 repo images_dir a rid rsz w0) as (_ & _ & Hreq) end.
  cbn zeta in Hreq. rewrite Hreq, Hurl. cbn [requests send set_idir].
  now rewrite <- app_assoc.
Qed.

Lemma image_sync_retries_after_failure_witness :
  let w1 := state_of (fetch_repo_images serves_no_zip sample_repo sample_iworld) in
  requests (state_of (fetch_repo_images serves_no_zip sample_repo w1)) =
  requests w1 ++ [ApiQuery "https://github.com/owner/repo/releases/download/latest/images.zip";
                  AssetDownload "https://example.org/images.zip"].
Proof.
  intros w1.
  destruct (image_sync_retries_after_failure serves_no_zip serves_no_zip sample_repo
              sample_iworld
              "https://github.com/owner/repo/releases/download/latest/images.zip"
              "/images/ports" [sample_asset 8] (sample_asset 8)
              "https://example.org/images.zip"
              eq_refl eq_refl eq_refl eq_refl eq_refl eq_refl)
    as (_ & _ & Hreq).
  - right. left. split; [reflexivity|now left].
  - reflexivity.
  - exact Hreq.
Defined.

(** ** The worker, end to end *)

Lemma endswith_refl s : endswith s s = true.
Proof.
  destruct s as [|c s]; [reflexivity|].
  change (endswith (String c s) (String c s))
    with (if String.eqb (String c s) (String c s) then true
          else endswith s (String c s)).
  now rewrite String.eqb_refl.
Qed.

Lemma endswith_app s suffix : endswith (s +:+ suffix) suffix = true.
Proof.
  induction s as [|c s IH]; [apply endswith_refl|].
  change (endswith (String c s +:+ suffix) suffix)
    with (if String.eqb (String c (s +:+ suffix)) suffix then true
          else endswith (s +:+ suffix) suffix).
  destruct (String.eqb _ _); [reflexivity|exact IH].
Qed.

(** The install phase when something is staged. *)
Lemma run_autoinstall_run env w :
  zip_files w <> [] ->
  exists (outcomes : list (string * Z)) w',
    _run_autoinstall env w = (Ok tt, w') /\
    outcomes.*1 = zip_files w /\
    progress_q w' =
      progress_q w ++ [Event 0 1 MInstallingPackages StPhase]
        ++ (outcomes ≫= fun o => install_events o.1 o.2)
        ++ [Event 0 1 MInstallationComplete StInstall] /\
    ledger w' = ledger w /\
    Forall (fun o => (o.2 = 0 /\ staging w' !! o.1 = None) \/
                     (o.2 = 255 /\ staging w' !! o.1 = staging w !! o.1)) outcomes /\
    Forall (fun o => exists wn, staging wn !! o.1 = staging w !! o.1 /\
                                result_of (install_zip (env o.1) o.1 wn) = Ok o.2)
           outcomes.
Proof.
  intros Hne. pose proof (NoDup_zip_files w) as Hnd.
  unfold _run_autoinstall, bind at 1, gets.
  destruct (zip_files w) as [|name names] eqn:Hn; [congruence|].
  cbv beta iota zeta delta [bind put modify].
  set (w0 := put_event (Event 0 1 MInstallingPackages StPhase) w).
  destruct (install_each_run env (name :: names) Hnd w0)
    as (outcomes & w1 & -> & Hnames & Hevs & Hled & Hout & _ & Hwhen).
  eexists outcomes, _. split; [reflexivity|]. split; [exact Hnames|].
  split; [cbn; rewrite Hevs; unfold w0; cbn; now rewrite <- !app_assoc|].
  split; [exact Hled|]. split; [exact Hout|exact Hwhen].
Qed.


(** X17.  The ledger records downloads, not installs.  When the only
    request of the queue is transferred to the end but the bytes are no
    zip archive, and the ledger write succeeds, the worker still records
    the package in the ledger with the size and digest of what it
    received; the install phase then fails for the archive, which stays
    staged, and the phase closes with [Installation complete]. *)
Theorem ledger_records_downloads_not_installs (env : nat -> item_env) (i : nat)
    (port : Port) (kind : string) (w : world) (total : Z) (chunks : list positive)
    (md5_hash : string) :
  ie_transfer (env i) = Stream total chunks (Eof md5_hash None) ->
  w_fault (ie_ledger (env i)) = None ->
  let zip_name := port_name port +:+ ".zip" in
  let n := received 0 chunks in
  let r := run env i [Some (port, kind)] w in
  let w' := state_of r in
  result_of r = Ok Waiting /\
  ledger w' = Some (Json (updated (load_manifest (ledger w))
                            (with_fingerprint port n md5_hash) kind)) /\
  staging w' !! zip_name = Some {| st_size := n; st_md5 := md5_hash; st_zip := None |} /\
  Event 0 1 (MInstallFailed zip_name) StInstall ∈ progress_q w' /\
  last (progress_q w') = Some (Event 0 1 MInstallationComplete StInstall).
Proof.
  intros Ht Hf zip_name n r w'.
  destruct (download_port_succeeds (env i) port kind w total chunks md5_hash None Ht)
    as (obs & Hdl).
  fold zip_name n in Hdl. rewrite Hf in Hdl.
  match type of Hdl with _ = (_, ?w0) => set (w1 := w0) in * end.
  assert (Hst1 : staging w1 !! zip_name
                 = Some {| st_size := n; st_md5 := md5_hash; st_zip := None |})
    by apply lookup_insert_eq.
  assert (Hin : zip_name ∈ zip_files w1).
  { apply elem_of_zip_files. split; [rewrite Hst1; eauto|apply endswith_app]. }
  destruct (run_autoinstall_run (ie_install (env i)) w1)
    as (outcomes & w2 & Hrun & Hnames & Hevs & Hled & Hout & Hwhen).
  { intros He. rewrite He in Hin. inversion Hin. }
  assert (Hr : r = (Ok Waiting, w2)).
  { subst r. cbn [run after_item]. unfold bind at 1. rewrite Hdl.
    unfold bind at 1. now rewrite Hrun. }
  subst w'. rewrite Hr. cbn [result_of state_of fst snd].
  rewrite <- Hnames in Hin. apply list_elem_of_fmap in Hin as ([name status] & Hname & Ho).
  cbn in Hname. subst name.
  rewrite Forall_forall in Hout, Hwhen.
  destruct (Hwhen _ Ho) as (wn & Hwn & Hres). cbn [fst snd] in Hwn, Hres.
  rewrite Hst1 in Hwn. rewrite (install_zip_bad_zip _ _ _ _ Hwn eq_refl) in Hres.
  cbn in Hres. injection Hres as <-.
  destruct (Hout _ Ho) as [[H0 _]|[_ Hkeep]]; [discriminate H0|]. cbn [fst snd] in Hkeep.
  split; [reflexivity|]. split; [now rewrite Hled|]. split; [now rewrite Hkeep|].
  rewrite Hevs. split.
  - apply elem_of_app. right. apply elem_of_app. right. apply elem_of_app. left.
    apply list_elem_of_bind. exists (zip_name, 255). split; [|exact Ho].
    cbn. right. left.
  - rewrite !app_assoc. apply last_snoc.
Qed.

Lemma ledger_records_downloads_not_installs_witness :
  let env := fun _ : nat =>
    {| ie_transfer := Stream 0 [60%positive; 40%positive] (Eof "abc" None);
       ie_ledger := no_fault;
       ie_install := fun _ => no_install_fault |} in
  let w' := state_of (run env 0 [Some (sample_port "game" "Game", "port")] empty_world) in
  is_Some (ledger w') /\
  staging w' !! "game.zip" = Some {| st_size := 100; st_md5 := "abc"; st_zip := None |}.
Proof.
  intros env w'.
  destruct (ledger_records_downloads_not_installs env 0 (sample_port "game" "Game") "port"
              empty_world 0 [60%positive; 40%positive] "abc" eq_refl eq_refl)
    as (_ & Hl & Hst & _).
  split; [unfold w'; rewrite Hl; eauto|exact Hst].
Defined.


